(** * LAN CRUD demo: handheld client reconciliation and record server

    A shallow embedding of the React Native client ([src/mobile/app.js],
    component [App]: [tryHealth], [connectWithBaseUrl], [connectFromSaved],
    [startZeroconfDiscovery], the start-up effect, the "Olvidar" handler and
    [onQrScanned]), of its Expo variant [LanCrudScreen] ([onQrData]) and of
    the Express server routes over the [items] table.

    JavaScript strings are sequences of code units; here they are Rocq
    strings, every character standing for one code unit below 256. *)

From Stdlib Require Import Ascii String ZArith QArith DecimalString.
From stdpp Require Import base option list strings gmap sorting.

#[local] Set Warnings "-register-all".

Local Open Scope string_scope.
Local Open Scope Z_scope.

(** ** JavaScript strings *)

Module JsString.

(** White space and line terminators removed by [String.prototype.trim],
    restricted to code units below 256: TAB, LF, VT, FF, CR, SP, NBSP. *)
Definition is_ws (c : ascii) : bool :=
  let n := nat_of_ascii c in
  (Nat.eqb n 9 || Nat.eqb n 10 || Nat.eqb n 11 || Nat.eqb n 12
   || Nat.eqb n 13 || Nat.eqb n 32 || Nat.eqb n 160)%bool.

Fixpoint trimStart (s : string) : string :=
  match s with
  | String c r => if is_ws c then trimStart r else s
  | EmptyString => EmptyString
  end.

Fixpoint trimEnd (s : string) : string :=
  match s with
  | String c r =>
      match trimEnd r with
      | EmptyString => if is_ws c then EmptyString else String c EmptyString
      | r' => String c r'
      end
  | EmptyString => EmptyString
  end.

(** [s.trim()] *)
Definition trim (s : string) : string := trimEnd (trimStart s).

(** [s.startsWith(p)] *)
Fixpoint startsWith (s p : string) : bool :=
  match p, s with
  | EmptyString, _ => true
  | String a p', String b s' => if Ascii.eqb a b then startsWith s' p' else false
  | String _ _, EmptyString => false
  end.

(** [s.includes(p)] *)
Fixpoint includes (s p : string) : bool :=
  if startsWith s p then true
  else match s with
       | String _ r => includes r p
       | EmptyString => false
       end.

(** [!s] is false exactly for the non-empty string. *)
Definition nonempty (s : string) : bool :=
  match s with EmptyString => false | String _ _ => true end.

Definition first_char (s : string) : option ascii :=
  match s with String c _ => Some c | EmptyString => None end.

Fixpoint last_char (s : string) : option ascii :=
  match s with
  | EmptyString => None
  | String c EmptyString => Some c
  | String _ r => last_char r
  end.

Fixpoint join (sep : string) (l : list string) : string :=
  match l with
  | [] => EmptyString
  | [x] => x
  | x :: r => x ++ sep ++ join sep r
  end%string.

End JsString.

(** ** JavaScript values, as far as JSON and the accessed properties go *)

Module Js.
Import JsString.

(** Numbers are the integers (of magnitude below 10^21, which print in
    plain decimal); this covers ports, timestamps and the numeric fields
    of the payloads handled below. *)
Inductive Value : Type :=
| Undefined
| Null
| Bool (b : bool)
| Num (z : Z)
| Str (s : string)
| Arr (l : list Value)
| Obj (fields : list (string * Value)).

Definition string_of_Z (z : Z) : string :=
  NilZero.string_of_int (Z.to_int z).

(** Own property of an object built by JSON: a later duplicate key
    overwrites an earlier one. *)
Fixpoint field (fs : list (string * Value)) (name : string) : option Value :=
  match fs with
  | [] => None
  | (k, v) :: r =>
      match field r name with
      | Some v' => Some v'
      | None => if String.eqb k name then Some v else None
      end
  end.

(** [String(v)], also the conversion inside a template literal; [None]
    when it throws a [TypeError]: an object read from JSON whose own
    [toString] property shadows the inherited method cannot be converted
    to a primitive. *)
Fixpoint String_ (v : Value) : option string :=
  match v with
  | Undefined => Some "undefined"
  | Null => Some "null"
  | Bool true => Some "true"
  | Bool false => Some "false"
  | Num z => Some (string_of_Z z)
  | Str s => Some s
  | Arr l =>
      join "," <$>
        ((fix elems (l : list Value) : option (list string) :=
            match l with
            | [] => Some []
            | x :: r =>
                match match x with
                      | Undefined | Null => Some EmptyString
                      | _ => String_ x
                      end, elems r with
                | Some a, Some b => Some (a :: b)
                | _, _ => None
                end
            end) l)
  | Obj fs =>
      match field fs "toString" with
      | Some _ => None
      | None => Some "[object Object]"
      end
  end.

(** Truthiness, as used by [!], [||] and [if]. *)
Definition truthy (v : Value) : bool :=
  match v with
  | Undefined | Null => false
  | Bool b => b
  | Num z => negb (z =? 0)
  | Str s => nonempty s
  | Arr _ | Obj _ => true
  end.

(** [a || b] *)
Definition or_ (a b : Value) : Value := if truthy a then a else b.

(** [a ?? b] *)
Definition nullish (a b : Value) : Value :=
  match a with Undefined | Null => b | _ => a end.

(** [v?.name] for the data properties read by the program ([baseUrl],
    [ok], [addresses], [port], [title]); none of them exists on a
    primitive or on an array. *)
Definition get (v : Value) (name : string) : Value :=
  match v with
  | Obj fs => default Undefined (field fs name)
  | _ => Undefined
  end.

(** Thrown values are [Error] objects. *)
Record Error : Type := mkError { name : string; message : string }.

(** [String(e)] for an [Error]. *)
Definition Error_toString (e : Error) : string :=
  match message e with
  | EmptyString => name e
  | m => (name e ++ ": " ++ m)%string
  end.

(** [String(e.message || e)] and [String(e?.message || e)] *)
Definition describe (e : Error) : string :=
  if nonempty (message e) then message e else Error_toString e.

(** [new Error(msg)] *)
Definition new_Error (msg : string) : Error := mkError "Error" msg.

(** The error of a failed conversion to a primitive. *)
Definition TypeError_primitive : Error :=
  mkError "TypeError" "Cannot convert object to primitive value".

End Js.

(** ** Asynchronous programs

    An [async function] is a tree of synchronous actions and [await]
    points.  Code between two [await]s runs without interruption; at an
    [await] the function is suspended until the promise settles. *)

Module Async.

(** What the program reads of a fetch [Response]: [res.ok], [res.status]
    and the value [res.json()] resolves to ([None]: the body is not JSON
    and the promise rejects). *)
Record Response : Type :=
  { res_ok : bool; res_status : Z; res_json : option Js.Value }.

Inductive Settled (R : Type) : Type :=
| Fulfilled (v : R)
| Rejected (e : Js.Error).
Arguments Fulfilled {R} v.
Arguments Rejected {R} e.

(** The promises the client awaits. *)
Inductive Request : Type -> Type :=
| fetch (input : string) (init : Js.Value) : Request Response
| json (res : Response) : Request Js.Value
| getItemAsync (key : string) : Request (option string)
| setItemAsync (key value : string) : Request unit
| deleteItemAsync (key : string) : Request unit.

(** Synchronous effects: React state setters, [Alert.alert], the
    methods of a [Zeroconf] instance, and [setTimeout].  The callback
    given to [setTimeout] closes over the [baseUrl] of the render that
    created it; the action records that captured value. *)
Inductive Action : Type :=
| setStatus (s : string)
| setBaseUrl (u : option string)
| setErr (e : string)
| setQrOpen (b : bool)
| Alert_alert (title msg : string)
| zeroconf_scan (zc : nat) (type protocol : string)
| zeroconf_on (zc : nat) (event : string)
| zeroconf_stop (zc : nat)
| setTimeout (captured_baseUrl : option string) (ms : Z).

Inductive Prog (A : Type) : Type :=
| Ret (a : A)
| Throw (e : Js.Error)
| Do (a : Action) (k : Prog A)
| new_Zeroconf (k : nat -> Prog A)
| Await {R : Type} (r : Request R) (k : Settled R -> Prog A).
Arguments Ret {A} a.
Arguments Throw {A} e.
Arguments Do {A} a k.
Arguments new_Zeroconf {A} k.
Arguments Await {A R} r k.

Fixpoint bind {A B : Type} (p : Prog A) (f : A -> Prog B) : Prog B :=
  match p with
  | Ret a => f a
  | Throw e => Throw e
  | Do a k => Do a (bind k f)
  | new_Zeroconf k => new_Zeroconf (fun zc => bind (k zc) f)
  | Await r k => Await r (fun x => bind (k x) f)
  end.

#[export] Instance Prog_ret : MRet Prog := fun A a => Ret a.
#[export] Instance Prog_bind : MBind Prog := fun A B f p => bind p f.

(** [try { p } catch (e) { h e }] *)
Fixpoint try_catch {A : Type} (p : Prog A) (h : Js.Error -> Prog A) : Prog A :=
  match p with
  | Ret a => Ret a
  | Throw e => h e
  | Do a k => Do a (try_catch k h)
  | new_Zeroconf k => new_Zeroconf (fun zc => try_catch (k zc) h)
  | Await r k => Await r (fun x => try_catch (k x) h)
  end.

(** [await r]: a rejection is thrown at the await. *)
Definition await {R : Type} (r : Request R) : Prog R :=
  Await r (fun x => match x with Fulfilled v => Ret v | Rejected e => Throw e end).

(** [await r.catch(() => v)] *)
Definition await_catch {R : Type} (r : Request R) (v : R) : Prog R :=
  Await r (fun x => match x with Fulfilled v' => Ret v' | Rejected _ => Ret v end).

Definition act (a : Action) : Prog unit := Do a (Ret tt).

(** *** The state the programs act on *)

Record Zeroconf : Type :=
  { scanning : option (string * string); listeners : list string }.

Record Timer : Type :=
  { captured : option string; delay : Z; fired : bool }.

(** The React state of the component that matters for the connection
    ([baseUrl], [status], [err], [qrOpen]), the device's secure store,
    the alerts shown, the [Zeroconf] instances created and the timers
    set. *)
Record Sys : Type :=
  { baseUrl : option string;
    status : string;
    err : string;
    qrOpen : bool;
    secureStore : gmap string string;
    alerts : list (string * string);
    zeroconfs : list Zeroconf;
    timers : list Timer }.

Definition with_zeroconfs (s : Sys) (z : list Zeroconf) : Sys :=
  {| baseUrl := baseUrl s; status := status s; err := err s; qrOpen := qrOpen s;
     secureStore := secureStore s; alerts := alerts s;
     zeroconfs := z; timers := timers s |}.

Definition with_secureStore (s : Sys) (m : gmap string string) : Sys :=
  {| baseUrl := baseUrl s; status := status s; err := err s; qrOpen := qrOpen s;
     secureStore := m; alerts := alerts s;
     zeroconfs := zeroconfs s; timers := timers s |}.

Definition with_timers (s : Sys) (t : list Timer) : Sys :=
  {| baseUrl := baseUrl s; status := status s; err := err s; qrOpen := qrOpen s;
     secureStore := secureStore s; alerts := alerts s;
     zeroconfs := zeroconfs s; timers := t |}.

Definition perform (a : Action) (s : Sys) : Sys :=
  match a with
  | setStatus v =>
      {| baseUrl := baseUrl s; status := v; err := err s; qrOpen := qrOpen s;
         secureStore := secureStore s; alerts := alerts s;
         zeroconfs := zeroconfs s; timers := timers s |}
  | setBaseUrl v =>
      {| baseUrl := v; status := status s; err := err s; qrOpen := qrOpen s;
         secureStore := secureStore s; alerts := alerts s;
         zeroconfs := zeroconfs s; timers := timers s |}
  | setErr v =>
      {| baseUrl := baseUrl s; status := status s; err := v; qrOpen := qrOpen s;
         secureStore := secureStore s; alerts := alerts s;
         zeroconfs := zeroconfs s; timers := timers s |}
  | setQrOpen v =>
      {| baseUrl := baseUrl s; status := status s; err := err s; qrOpen := v;
         secureStore := secureStore s; alerts := alerts s;
         zeroconfs := zeroconfs s; timers := timers s |}
  | Alert_alert t m =>
      {| baseUrl := baseUrl s; status := status s; err := err s; qrOpen := qrOpen s;
         secureStore := secureStore s; alerts := alerts s ++ [(t, m)];
         zeroconfs := zeroconfs s; timers := timers s |}
  | zeroconf_scan zc t p =>
      with_zeroconfs s
        (alter (fun z => {| scanning := Some (t, p); listeners := listeners z |})
           zc (zeroconfs s))
  | zeroconf_on zc ev =>
      with_zeroconfs s
        (alter (fun z => {| scanning := scanning z; listeners := listeners z ++ [ev] |})
           zc (zeroconfs s))
  | zeroconf_stop zc =>
      with_zeroconfs s
        (alter (fun z => {| scanning := None; listeners := listeners z |})
           zc (zeroconfs s))
  | setTimeout c ms =>
      with_timers s (timers s ++ [{| captured := c; delay := ms; fired := false |}])
  end.

(** *** Settling a promise *)

(** What the environment decides when a promise settles: the network's
    result for a fetch, or whether a local operation (secure store, body
    decoding) completes or fails. *)
Inductive Answer : Type :=
| Net (a : Settled Response)
| Completes
| Fails (e : Js.Error).

Definition SyntaxError : Js.Error := Js.mkError "SyntaxError" "JSON Parse error".
Definition AbortError : Js.Error := Js.mkError "AbortError" "Aborted".

Definition settle (a : Answer) (s : Sys) {R : Type} (r : Request R)
  : option (Settled R * Sys) :=
  match r in Request R return option (Settled R * Sys) with
  | fetch _ _ =>
      match a with Net x => Some (x, s) | _ => None end
  | json res =>
      match a with
      | Completes =>
          Some (match res_json res with
                | Some v => Fulfilled v
                | None => Rejected SyntaxError
                end, s)
      | _ => None
      end
  | getItemAsync key =>
      match a with
      | Completes => Some (Fulfilled (secureStore s !! key), s)
      | Fails e => Some (Rejected e, s)
      | Net _ => None
      end
  | setItemAsync key v =>
      match a with
      | Completes => Some (Fulfilled tt, with_secureStore s (<[key:=v]> (secureStore s)))
      | Fails e => Some (Rejected e, s)
      | Net _ => None
      end
  | deleteItemAsync key =>
      match a with
      | Completes => Some (Fulfilled tt, with_secureStore s (delete key (secureStore s)))
      | Fails e => Some (Rejected e, s)
      | Net _ => None
      end
  end.

(** What an observer sees of a run. *)
Inductive Obs : Type :=
| Did (a : Action)
| Created (zc : nat)
| Fetched (input : string) (init : Js.Value) (x : Settled Response)
| Decoded (res : Response) (x : Settled Js.Value)
| GotItem (key : string) (x : Settled (option string))
| SetItem (key value : string) (x : Settled unit)
| DeletedItem (key : string) (x : Settled unit).

Definition observe {R : Type} (r : Request R) : Settled R -> Obs :=
  match r in Request R return Settled R -> Obs with
  | fetch i o => Fetched i o
  | json res => Decoded res
  | getItemAsync k => GotItem k
  | setItemAsync k v => SetItem k v
  | deleteItemAsync k => DeletedItem k
  end.

Definition create_zeroconf (s : Sys) : nat * Sys :=
  (length (zeroconfs s),
   with_zeroconfs s (zeroconfs s ++ [{| scanning := None; listeners := [] |}])).

(** *** One function run to its end

    The environment of a single run: what the network does with a
    request to a URL ([None]: it never answers), and whether each secure
    store operation fails. *)
Record World : Type :=
  { net : string -> option (Settled Response);
    getItem_error : option Js.Error;
    setItem_error : option Js.Error;
    deleteItem_error : option Js.Error }.

Definition storage (e : option Js.Error) : Answer :=
  match e with Some e => Fails e | None => Completes end.

(** A fetch whose [init] carries an abort [signal] is rejected when the
    network stays silent; one without stays pending. *)
Definition answer (w : World) {R : Type} (r : Request R) : option Answer :=
  match r with
  | fetch input init =>
      match net w input with
      | Some x => Some (Net x)
      | None =>
          if Js.truthy (Js.get init "signal")
          then Some (Net (Rejected AbortError)) else None
      end
  | json _ => Some Completes
  | getItemAsync _ => Some (storage (getItem_error w))
  | setItemAsync _ _ => Some (storage (setItem_error w))
  | deleteItemAsync _ => Some (storage (deleteItem_error w))
  end.

Inductive Outcome (A : Type) : Type :=
| Returned (a : A)
| Raised (e : Js.Error)
| Pending.
Arguments Returned {A} a.
Arguments Raised {A} e.
Arguments Pending {A}.

Record Run (A : Type) : Type :=
  { outcome : Outcome A; final : Sys; trace : list Obs }.
Arguments outcome {A} r.
Arguments final {A} r.
Arguments trace {A} r.

Definition seen {A : Type} (o : Obs) (r : Run A) : Run A :=
  {| outcome := outcome r; final := final r; trace := o :: trace r |}.

Fixpoint exec {A : Type} (w : World) (p : Prog A) (s : Sys) : Run A :=
  match p with
  | Ret a => {| outcome := Returned a; final := s; trace := [] |}
  | Throw e => {| outcome := Raised e; final := s; trace := [] |}
  | Do a k => seen (Did a) (exec w k (perform a s))
  | new_Zeroconf k =>
      let '(zc, s') := create_zeroconf s in
      seen (Created zc) (exec w (k zc) s')
  | Await r k =>
      match answer w r with
      | None => {| outcome := Pending; final := s; trace := [] |}
      | Some a =>
          match settle a s r with
          | None => {| outcome := Pending; final := s; trace := [] |}
          | Some (x, s') => seen (observe r x) (exec w (k x) s')
          end
      end
  end.

End Async.

(** ** The client component [App] of [src/mobile/app.js] *)

Module App.
Import JsString Async.

Definition STORE_KEY : string := "LAN_BASE_URL".
Definition SERVICE_TYPE : string := "ivadent".
Definition DEFAULT_PORT : Z := 4310.

(** [useState(null)], [useState("Buscando server...")], ... : the state
    of the first render, over a given content of the secure store. *)
Definition initial_baseUrl : option string := None.

Definition initial (store : gmap string string) : Sys :=
  {| baseUrl := initial_baseUrl; status := "Buscando server..."; err := EmptyString;
     qrOpen := false; secureStore := store; alerts := [];
     zeroconfs := []; timers := [] |}.

(** [!baseUrl] on the state variable ([null] or a string). *)
Definition no_baseUrl (u : option string) : bool :=
  match u with
  | None => true
  | Some s => negb (nonempty s)
  end.

Definition tryHealth (baseUrl : string) : Prog bool :=
  res ← await (fetch (baseUrl ++ "/health") Js.Undefined);
  if negb (res_ok res) then mret false
  else
    data ← await_catch (json res) Js.Null;
    mret (Js.truthy (Js.get data "ok")).

Definition connectWithBaseUrl (url : string) : Prog unit :=
  act (setStatus "Probando conexion...");;
  ok ← tryHealth url;
  if negb ok then
    act (setStatus "No se pudo conectar.");;
    Throw (Js.new_Error "No responde /health (misma red? firewall?)")
  else
    await (setItemAsync STORE_KEY url);;
    act (setBaseUrl (Some url));;
    act (setStatus "Conectado").

Definition connectFromSaved : Prog bool :=
  saved ← await (getItemAsync STORE_KEY);
  match saved with
  | Some (String c r) =>
      try_catch (connectWithBaseUrl (String c r);; mret true)
                (fun _ => mret false)
  | _ => mret false
  end.

(** [service?.addresses?.find((x) => typeof x === "string" && x.includes("."))] *)
Definition looks_like_ip (x : Js.Value) : bool :=
  match x with
  | Js.Str s => includes s "."
  | _ => false
  end.

Definition find_address (service : Js.Value) : Js.Error + Js.Value :=
  match Js.get service "addresses" with
  | Js.Undefined | Js.Null => inr Js.Undefined
  | Js.Arr l => inr (default Js.Undefined (List.find looks_like_ip l))
  | _ => inl (Js.mkError "TypeError" "service?.addresses?.find is not a function")
  end.

(** The listener of the ["resolved"] event of instance [zc]. *)
Definition on_resolved (zc : nat) (service : Js.Value) : Prog unit :=
  try_catch
    (match find_address service with
     | inl e => Throw e
     | inr ip =>
         let port := Js.or_ (Js.get service "port") (Js.Num DEFAULT_PORT) in
         if negb (Js.truthy ip) then mret tt
         else
           match Js.String_ ip, Js.String_ port with
           | Some ip, Some port =>
               let url := "http://" ++ ip ++ ":" ++ port in
               connectWithBaseUrl url;;
               act (zeroconf_stop zc)
           | _, _ => Throw Js.TypeError_primitive
           end
     end)
    (fun e => act (setErr (Js.describe e))).

(** The listener of the ["error"] event. *)
Definition on_error (e : Js.Error) : Prog unit :=
  act (setStatus "Zeroconf error (usa QR)");;
  act (setErr (Js.describe e)).

(** The callback given to [setTimeout]; [baseUrl] is the constant of the
    render whose [startZeroconfDiscovery] set the timer. *)
Definition on_timeout (baseUrl : option string) : Prog unit :=
  if no_baseUrl baseUrl
  then act (setStatus "No se encontro por mDNS. Usa QR (fallback).")
  else mret tt.

(** [startZeroconfDiscovery] of a render whose [baseUrl] is the given
    one; the result stands for the returned clean-up closure, which
    stops the instance. *)
Definition startZeroconfDiscovery (baseUrl : option string) : Prog nat :=
  zeroconf ← new_Zeroconf (fun zc => Ret zc);
  act (setStatus "Buscando por mDNS (Zeroconf)...");;
  act (zeroconf_scan zeroconf SERVICE_TYPE "tcp");;
  act (zeroconf_on zeroconf "resolved");;
  act (zeroconf_on zeroconf "error");;
  act (setTimeout baseUrl 6000);;
  mret zeroconf.

(** The effect run once after the first render; the functions it calls
    are those of that render, whose [baseUrl] is the initial one. *)
Definition startup : Prog unit :=
  okSaved ← connectFromSaved;
  if okSaved : bool then mret tt
  else
    startZeroconfDiscovery initial_baseUrl;;
    mret tt.

(** The "Olvidar" button. *)
Definition olvidar : Prog unit :=
  await (deleteItemAsync STORE_KEY);;
  act (setBaseUrl None);;
  act (setStatus "BaseUrl borrada. Busca de nuevo.").

Section Scanner.
(** [JSON.parse], [None] when it throws. *)
Variable JSON_parse : string -> option Js.Value.

(** [String(parsed?.baseUrl || E).trim()], [E] the empty string *)
Definition scanned_url (parsed : Js.Value) : option string :=
  trim <$> Js.String_ (Js.or_ (Js.get parsed "baseUrl") (Js.Str EmptyString)).

Definition onQrScanned (data : string) : Prog unit :=
  try_catch
    (match JSON_parse data with
     | None => Throw SyntaxError
     | Some parsed =>
         match scanned_url parsed with
         | None => Throw Js.TypeError_primitive
         | Some url =>
             if negb (startsWith url "http")
             then Throw (Js.new_Error "QR invalido (sin baseUrl)")
             else
               act (setQrOpen false);;
               connectWithBaseUrl url
         end
     end)
    (fun e => act (Alert_alert "QR invalido" (Js.describe e))).
End Scanner.

End App.

(** ** The event loop

    Several handlers can be suspended at once; every event of the loop
    starts one handler or resumes one suspended task, which then runs to
    its next [await]. *)

Module Loop.
Import JsString Async App.

(** The synchronous code at the head of a task runs, up to the next
    [await] or the end of the task. *)
Fixpoint advance {A : Type} (p : Prog A) (s : Sys) : Prog A * Sys :=
  match p with
  | Do a k => advance k (perform a s)
  | new_Zeroconf k => let '(zc, s') := create_zeroconf s in advance (k zc) s'
  | _ => (p, s)
  end.

(** The promise a task waits for settles. *)
Definition resume {A : Type} (p : Prog A) (a : Answer) (s : Sys)
  : option (Prog A * Sys) :=
  match p with
  | Await r k =>
      match settle a s r with
      | Some (x, s') => Some (advance (k x) s')
      | None => None
      end
  | _ => None
  end.

(** The state and the tasks started so far, each suspended at an [await]
    or finished. *)
Record Machine : Type := { sys : Sys; tasks : list (Prog unit) }.

Definition boot (store : gmap string string) : Machine :=
  {| sys := initial store; tasks := [] |}.

Definition spawn (p : Prog unit) (m : Machine) : Machine :=
  let '(p', s') := advance p (sys m) in
  {| sys := s'; tasks := tasks m ++ [p'] |}.

(** The first render is committed; a button is pressed; the scanner
    reads a code; a [Zeroconf] instance emits ["resolved"] or ["error"];
    a timer fires; the promise awaited by a task settles. *)
Inductive Event : Type :=
| Mounted
| Pressed_Olvidar
| Pressed_Reintentar_mDNS
| Pressed_Escanear_QR
| Scanned (data : string)
| Resolved (zc : nat) (service : Js.Value)
| Errored (zc : nat) (e : Js.Error)
| TimedOut (timer : nat)
| Settles (task : nat) (a : Answer).

Definition listening (s : Sys) (zc : nat) (event : string) : bool :=
  match zeroconfs s !! zc with
  | Some z =>
      match scanning z with
      | Some _ => bool_decide (event ∈ listeners z)
      | None => false
      end
  | None => false
  end.

Section Step.
Variable JSON_parse : string -> option Js.Value.

(** The start-up effect and the timers it sets belong to the first
    render; the handler of "Reintentar mDNS" belongs to the current
    render, so its [startZeroconfDiscovery] closes over the current
    [baseUrl].  The camera permission dialogue of [openQr] is left out:
    it only decides whether the scanner delivers codes. *)
Definition step (ev : Event) (m : Machine) : option Machine :=
  match ev with
  | Mounted => Some (spawn startup m)
  | Pressed_Olvidar => Some (spawn olvidar m)
  | Pressed_Reintentar_mDNS =>
      Some (spawn (startZeroconfDiscovery (baseUrl (sys m));; mret tt) m)
  | Pressed_Escanear_QR => Some (spawn (act (setQrOpen true)) m)
  | Scanned data =>
      if qrOpen (sys m) then Some (spawn (onQrScanned JSON_parse data) m) else None
  | Resolved zc service =>
      if listening (sys m) zc "resolved"
      then Some (spawn (on_resolved zc service) m) else None
  | Errored zc e =>
      if listening (sys m) zc "error" then Some (spawn (on_error e) m) else None
  | TimedOut i =>
      match timers (sys m) !! i with
      | Some t =>
          if fired t then None
          else
            Some (spawn (on_timeout (captured t))
                    {| sys := with_timers (sys m)
                                (<[i := {| captured := captured t;
                                           delay := delay t;
                                           fired := true |}]> (timers (sys m)));
                       tasks := tasks m |})
      | None => None
      end
  | Settles i a =>
      match tasks m !! i with
      | Some p =>
          match resume p a (sys m) with
          | Some (p', s') => Some {| sys := s'; tasks := <[i := p']> (tasks m) |}
          | None => None
          end
      | None => None
      end
  end.

Fixpoint run (evs : list Event) (m : Machine) : option Machine :=
  match evs with
  | [] => Some m
  | ev :: rest =>
      match step ev m with
      | Some m' => run rest m'
      | None => None
      end
  end.
End Step.

End Loop.

(** ** A reader for JSON texts

    Used to evaluate the scanner on concrete payloads.  It follows the JSON
    grammar for white space, literals, strings (with escapes), arrays and
    objects; number literals are the integer ones of [Js.Num]. *)

Module JSON.

(** The double quote, code 34. *)
Abbreviation dquote := (Ascii false true false false false true false false).

Definition is_space (c : ascii) : bool :=
  let n := nat_of_ascii c in
  (Nat.eqb n 32 || Nat.eqb n 9 || Nat.eqb n 10 || Nat.eqb n 13)%bool.

Fixpoint skip (s : string) : string :=
  match s with
  | String c r => if is_space c then skip r else s
  | EmptyString => EmptyString
  end.

Fixpoint strip (p s : string) : option string :=
  match p, s with
  | EmptyString, _ => Some s
  | String a p', String b s' => if Ascii.eqb a b then strip p' s' else None
  | String _ _, EmptyString => None
  end.

Definition digit (c : ascii) : option Z :=
  let n := nat_of_ascii c in
  if (Nat.leb 48 n && Nat.leb n 57)%bool then Some (Z.of_nat n - 48) else None.

Definition hex (c : ascii) : option nat :=
  let n := nat_of_ascii c in
  if (Nat.leb 48 n && Nat.leb n 57)%bool then Some (n - 48)%nat
  else if (Nat.leb 65 n && Nat.leb n 70)%bool then Some (n - 55)%nat
  else if (Nat.leb 97 n && Nat.leb n 102)%bool then Some (n - 87)%nat
  else None.

Fixpoint digits (acc : Z) (s : string) : Z * string :=
  match s with
  | String c r =>
      match digit c with
      | Some d => digits (10 * acc + d) r
      | None => (acc, s)
      end
  | EmptyString => (acc, s)
  end.

(** The digits of an integer literal: no leading zero, and nothing of a
    fraction or an exponent after them. *)
Definition natural (s : string) : option (Z * string) :=
  match s with
  | String c r =>
      match digit c with
      | Some d =>
          let '(n, rest) := if d =? 0 then (0, r) else digits d r in
          match rest with
          | String c' _ =>
              if (Ascii.eqb c' "." || Ascii.eqb c' "e" || Ascii.eqb c' "E"
                  || match digit c' with Some _ => true | None => false end)%bool
              then None else Some (n, rest)
          | EmptyString => Some (n, rest)
          end
      | None => None
      end
  | EmptyString => None
  end.

Definition escape (c : ascii) : option ascii :=
  if Ascii.eqb c dquote then Some dquote
  else if Ascii.eqb c "\" then Some "\"%char
  else if Ascii.eqb c "/" then Some "/"%char
  else if Ascii.eqb c "b" then Some (ascii_of_nat 8)
  else if Ascii.eqb c "f" then Some (ascii_of_nat 12)
  else if Ascii.eqb c "n" then Some (ascii_of_nat 10)
  else if Ascii.eqb c "r" then Some (ascii_of_nat 13)
  else if Ascii.eqb c "t" then Some (ascii_of_nat 9)
  else None.

(** The characters of a string literal after its opening quote. *)
Fixpoint chars (s : string) : option (string * string) :=
  match s with
  | EmptyString => None
  | String c r =>
      if Ascii.eqb c dquote then Some (EmptyString, r)
      else if Ascii.eqb c "\" then
        match r with
        | String "u" (String h1 (String h2 (String h3 (String h4 r')))) =>
            match hex h1, hex h2, hex h3, hex h4, chars r' with
            | Some 0%nat, Some 0%nat, Some a, Some b, Some (t, rest) =>
                Some (String (ascii_of_nat (16 * a + b)) t, rest)
            | _, _, _, _, _ => None
            end
        | String e r' =>
            match escape e, chars r' with
            | Some c', Some (t, rest) => Some (String c' t, rest)
            | _, _ => None
            end
        | EmptyString => None
        end
      else if Nat.ltb (nat_of_ascii c) 32 then None
      else
        match chars r with
        | Some (t, rest) => Some (String c t, rest)
        | None => None
        end
  end.

Fixpoint value (fuel : nat) (s : string) : option (Js.Value * string) :=
  match fuel with
  | O => None
  | S fuel =>
      match skip s with
      | String "n" r => r' ← strip "ull" r; Some (Js.Null, r')
      | String "t" r => r' ← strip "rue" r; Some (Js.Bool true, r')
      | String "f" r => r' ← strip "alse" r; Some (Js.Bool false, r')
      | String dquote r => '(t, r') ← chars r; Some (Js.Str t, r')
      | String "-" r => '(n, r') ← natural r; Some (Js.Num (- n), r')
      | String "[" r =>
          match skip r with
          | String "]" r' => Some (Js.Arr [], r')
          | _ => '(l, r') ← elements fuel r; Some (Js.Arr l, r')
          end
      | String "{" r =>
          match skip r with
          | String "}" r' => Some (Js.Obj [], r')
          | _ => '(l, r') ← members fuel r; Some (Js.Obj l, r')
          end
      | r => '(n, r') ← natural r; Some (Js.Num n, r')
      end
  end
with elements (fuel : nat) (s : string) : option (list Js.Value * string) :=
  match fuel with
  | O => None
  | S fuel =>
      '(v, r) ← value fuel s;
      match skip r with
      | String "]" r' => Some ([v], r')
      | String "," r' => '(l, r'') ← elements fuel r'; Some (v :: l, r'')
      | _ => None
      end
  end
with members (fuel : nat) (s : string) : option (list (string * Js.Value) * string) :=
  match fuel with
  | O => None
  | S fuel =>
      match skip s with
      | String dquote r =>
          '(k, r1) ← chars r;
          match skip r1 with
          | String ":" r2 =>
              '(v, r3) ← value fuel r2;
              match skip r3 with
              | String "}" r' => Some ([(k, v)], r')
              | String "," r' => '(l, r'') ← members fuel r'; Some ((k, v) :: l, r'')
              | _ => None
              end
          | _ => None
          end
      | _ => None
      end
  end.

(** Payloads are written below with apostrophes for the double quotes
    of the JSON text. *)
Fixpoint text (s : string) : string :=
  match s with
  | String c r => String (if Ascii.eqb c "'" then dquote else c) (text r)
  | EmptyString => EmptyString
  end.

(** [JSON.parse(text)], [None] when it throws. *)
Definition parse (text : string) : option Js.Value :=
  match value (2 * String.length text + 2) text with
  | Some (v, r) =>
      match skip r with
      | EmptyString => Some v
      | _ => None
      end
  | None => None
  end.

End JSON.

(** ** The Expo screen [LanCrudScreen]

    The variant of the client without multicast discovery.  Its display
    texts are kept byte for byte. *)

Module LanCrudScreen.
Import JsString Async.

Definition STORE_KEY : string := "LAN_BASE_URL".

Definition tryHealth (baseUrl : string) : Prog bool :=
  res ← await (fetch (baseUrl ++ "/health") Js.Undefined);
  if negb (res_ok res) then mret false
  else
    data ← await_catch (json res) Js.Null;
    mret (Js.truthy (Js.get data "ok")).

Definition connectWithBaseUrl (url : string) : Prog unit :=
  act (setStatus "Probando conexión...");;
  ok ← tryHealth url;
  if negb ok then
    act (setStatus "No se pudo conectar.");;
    Throw (Js.new_Error "No responde /health (¿misma red? ¿firewall?)")
  else
    await (setItemAsync STORE_KEY url);;
    act (setBaseUrl (Some url));;
    act (setStatus "Conectado ✅").

Definition connectFromSaved : Prog unit :=
  saved ← await (getItemAsync STORE_KEY);
  match saved with
  | Some (String c r) =>
      try_catch (connectWithBaseUrl (String c r))
        (fun e =>
           act (setErr (Js.describe e));;
           act (setStatus "Guardada falló (usa QR)"))
  | _ => mret tt
  end.

Section Scanner.
Variable JSON_parse : string -> option Js.Value.

Definition onQrData (data : string) : Prog unit :=
  try_catch
    (match JSON_parse data with
     | None => Throw SyntaxError
     | Some parsed =>
         match trim <$> Js.String_ (Js.or_ (Js.get parsed "baseUrl")
                                      (Js.Str EmptyString)) with
         | None => Throw Js.TypeError_primitive
         | Some url =>
             if negb (startsWith url "http")
             then Throw (Js.new_Error "QR inválido (sin baseUrl)")
             else
               act (setQrOpen false);;
               connectWithBaseUrl url
         end
     end)
    (fun e => act (Alert_alert "QR inválido" (Js.describe e))).
End Scanner.

End LanCrudScreen.

(** ** The server: routes over the [items] table *)

Module Server.
Import JsString.

Record Row : Type := { id : Z; title : string; updated_at : string }.

(** The table and the counter SQLite keeps for [AUTOINCREMENT]. *)
Record Db : Type := { items : list Row; sequence : Z }.

(** [CREATE TABLE IF NOT EXISTS items] on a new database file. *)
Definition empty : Db := {| items := []; sequence := 0 |}.

Record Response : Type := { code : Z; body : Js.Value }.

Definition row_json (r : Row) : Js.Value :=
  Js.Obj [("id", Js.Num (id r)); ("title", Js.Str (title r));
          ("updated_at", Js.Str (updated_at r))].

Definition error_json (msg : string) : Js.Value :=
  Js.Obj [("error", Js.Str msg)].

(** The number [Number(req.params.id)] can be. *)
Inductive JsNumber : Type :=
| NaN
| Infinity (negative : bool)
| Finite (q : Q).

(** [!Number.isFinite(id) || id <= 0] *)
Definition bad_id (n : JsNumber) : bool :=
  match n with
  | Finite q => Qle_bool q 0
  | _ => true
  end.

(** [WHERE id=?] *)
Definition has_id (n : JsNumber) (r : Row) : bool :=
  match n with
  | Finite q => Qeq_bool q (inject_Z (id r))
  | _ => false
  end.

(** [ORDER BY id DESC] *)
Fixpoint place (r : Row) (l : list Row) : list Row :=
  match l with
  | [] => [r]
  | x :: l' => if id x <=? id r then r :: l else x :: place r l'
  end.

Definition by_id_desc (l : list Row) : list Row := foldr place [] l.

(** The rowid an [INSERT] assigns: one more than the largest ever used. *)
Definition next_id (db : Db) : Z :=
  Z.max (sequence db) (foldr (fun r m => Z.max (id r) m) 0 (items db)) + 1.

(** [String(req.body?.title ?? E).trim()], [E] the empty string; [None]
    when the conversion throws. *)
Definition title_of (req_body : Js.Value) : option string :=
  trim <$> Js.String_ (Js.nullish (Js.get req_body "title") (Js.Str EmptyString)).

(** What Express answers when a route handler throws: status 500 with an
    error page, whose text is left out. *)
Definition internal_error : Response := {| code := 500; body := Js.Undefined |}.

Inductive Request : Type :=
| GET_health
| GET_items
| POST_items (req_body : Js.Value)
| PUT_items (id_param : string) (req_body : Js.Value)
| DELETE_items (id_param : string).

Section Routes.
(** [Number] on a route parameter. *)
Variable Number_ : string -> JsNumber.

(** [now] is what [nowIso()] returns while the request is handled. *)
Definition handle (now : string) (req : Request) (db : Db) : Response * Db :=
  match req with
  | GET_health =>
      ({| code := 200;
          body := Js.Obj [("ok", Js.Bool true); ("time", Js.Str now)] |}, db)
  | GET_items =>
      ({| code := 200; body := Js.Arr (row_json <$> by_id_desc (items db)) |}, db)
  | POST_items req_body =>
      match title_of req_body with
      | None => (internal_error, db)
      | Some title =>
          if negb (nonempty title)
          then ({| code := 400; body := error_json "title requerido" |}, db)
          else
            let row := {| id := next_id db; title := title; updated_at := now |} in
            ({| code := 201; body := row_json row |},
             {| items := items db ++ [row]; sequence := next_id db |})
      end
  | PUT_items id_param req_body =>
      let id := Number_ id_param in
      match title_of req_body with
      | None => (internal_error, db)
      | Some title =>
          if bad_id id
          then ({| code := 400; body := error_json "id invalido" |}, db)
          else if negb (nonempty title)
          then ({| code := 400; body := error_json "title requerido" |}, db)
          else
            match List.find (has_id id) (items db) with
            | None => ({| code := 404; body := error_json "no encontrado" |}, db)
            | Some existing =>
                let updated :=
                  {| id := Server.id existing; title := title; updated_at := now |} in
                ({| code := 200; body := row_json updated |},
                 {| items :=
                      (fun r => if has_id id r then
                                  {| id := Server.id r; title := title;
                                     updated_at := now |}
                                else r) <$> items db;
                    sequence := sequence db |})
            end
      end
  | DELETE_items id_param =>
      let id := Number_ id_param in
      if bad_id id
      then ({| code := 400; body := error_json "id invalido" |}, db)
      else if forallb (fun r => negb (has_id id r)) (items db)
      then ({| code := 404; body := error_json "no encontrado" |}, db)
      else
        ({| code := 200; body := Js.Obj [("ok", Js.Bool true)] |},
         {| items := filter (fun r => has_id id r = false) (items db);
            sequence := sequence db |})
  end.

(** A session: the requests served in order, each with its clock
    reading. *)
Fixpoint serve (reqs : list (string * Request)) (db : Db) : Db :=
  match reqs with
  | [] => db
  | (now, req) :: rest => serve rest (snd (handle now req db))
  end.
End Routes.

(** Every stored title is non-empty and starts and ends with a
    character that is not white space. *)
Definition well_titled (r : Row) : Prop :=
  title r <> EmptyString /\
  (forall c, first_char (title r) = Some c -> is_ws c = false) /\
  (forall c, last_char (title r) = Some c -> is_ws c = false).

Fixpoint all_ws (s : string) : bool :=
  match s with
  | String c r => is_ws c && all_ws r
  | EmptyString => true
  end.

(** A title that is missing, empty or white space only. *)
Definition blank_title (req_body : Js.Value) : Prop :=
  match Js.get req_body "title" with
  | Js.Undefined | Js.Null => True
  | Js.Str s => all_ws s = true
  | _ => False
  end.

(** [Number] on the route parameters the clients send: the decimal
    digits of a row id.  Any other text is taken as not a number. *)
Definition Number_of_digits (s : string) : JsNumber :=
  match JSON.natural s with
  | Some (n, EmptyString) => Finite (inject_Z n)
  | _ => NaN
  end.

End Server.

(** ** Statements about the client: vocabulary *)

Module Claims.
Import JsString Async App Loop.

(** The result of the liveness probe of [url] in a world. *)
Definition probe (w : World) (url : string) : Outcome bool :=
  outcome (exec w (tryHealth url) (initial ∅)).

(** Events of a run that belong to the discovery channel. *)
Definition discovery_event (o : Obs) : bool :=
  match o with
  | Created _ => true
  | Did (zeroconf_scan _ _ _) => true
  | Did (zeroconf_on _ _) => true
  | _ => false
  end.

Definition no_discovery (t : list Obs) : bool :=
  forallb (fun o => negb (discovery_event o)) t.

(** The instance [startZeroconfDiscovery] leaves behind. *)
Definition started_channel : Zeroconf :=
  {| scanning := Some (SERVICE_TYPE, "tcp"); listeners := ["resolved"; "error"] |}.

(** "A saved endpoint whose probe succeeds connects without discovery",
    for every world in which the saved endpoint is read and probed
    successfully. *)
Definition saved_endpoint_skips_discovery : Prop :=
  forall (w : World) (store : gmap string string) (E : string),
    store !! STORE_KEY = Some E ->
    E <> EmptyString ->
    getItem_error w = None ->
    probe w E = Returned true ->
    let r := exec w startup (initial store) in
    baseUrl (final r) = Some E /\ no_discovery (trace r) = true.




(** An event that settles the promise of a task started before the
    [n]-th. *)
Definition settles_before (n : nat) (ev : Event) : bool :=
  match ev with
  | Settles i _ => (i <? n)%nat
  | _ => false
  end.

(** "After forget the state is idle, the store is empty, and no probe
    that was in flight can connect any more." *)
Definition forget_is_final (JSON_parse : string -> option Js.Value) : Prop :=
  forall (store : gmap string string) (before after : list Event) (m1 m2 m3 : Machine),
    run JSON_parse before (boot store) = Some m1 ->
    run JSON_parse [Pressed_Olvidar; Settles (length (tasks m1)) Completes] m1 = Some m2 ->
    forallb (settles_before (length (tasks m1))) after = true ->
    run JSON_parse after m2 = Some m3 ->
    (baseUrl (sys m2) = None /\ secureStore (sys m2) !! STORE_KEY = None) /\
    baseUrl (sys m3) = None.

(** "A failed write of the store does not prevent the connection." *)
Definition write_failure_keeps_connection : Prop :=
  forall (w : World) (s : Sys) (url : string) (e : Js.Error),
    probe w url = Returned true ->
    setItem_error w = Some e ->
    baseUrl (final (exec w (connectWithBaseUrl url) s)) = Some url.

(** "The hint of the discovery timeout shows only while nothing is
    connected." *)
Definition hint_only_when_disconnected (JSON_parse : string -> option Js.Value) : Prop :=
  forall (store : gmap string string) (evs : list Event) (i : nat) (m m' : Machine),
    run JSON_parse evs (boot store) = Some m ->
    step JSON_parse (TimedOut i) m = Some m' ->
    status (sys m') <> status (sys m) ->
    baseUrl (sys m) = None.

(** A health response of the server: [200] with [{ ok: true, time }]. *)
Definition alive (time : string) : Response :=
  {| res_ok := true; res_status := 200;
     res_json := Some (Js.Obj [("ok", Js.Bool true); ("time", Js.Str time)]) |}.

(** A world where every host answers the health request, and the
    secure store works except as said. *)
Definition all_alive (set_error : option Js.Error) : World :=
  {| net := fun _ => Some (Fulfilled (alive "2024-01-01T00:00:00.000Z"));
     getItem_error := None; setItem_error := set_error; deleteItem_error := None |}.

(** A world where no host can be reached. *)
Definition unreachable : World :=
  {| net := fun _ => Some (Rejected (Js.mkError "TypeError" "Network request failed"));
     getItem_error := None; setItem_error := None; deleteItem_error := None |}.

Definition keychain_error : Js.Error :=
  Js.mkError "Error" "Could not encrypt the value for SecureStore".

(** A service advertised with one IPv4 address and the default port. *)
Definition advertised : Js.Value :=
  Js.Obj [("name", Js.Str "Ivadent Server");
          ("addresses", Js.Arr [Js.Str "192.168.1.50"]);
          ("port", Js.Num 4310)].

(** What the store is known to hold under [STORE_KEY] right after a
    promise settles: the value of a fulfilled write, nothing otherwise
    (other tasks may have run while the task was suspended). *)
Definition held_after {R : Type} (r : Request R) : Settled R -> option string :=
  match r in Request R return Settled R -> option string with
  | setItemAsync key v =>
      fun x => match x with
               | Fulfilled _ => if String.eqb key STORE_KEY then Some v else None
               | Rejected _ => None
               end
  | _ => fun _ => None
  end.

(** On every path of the program, an endpoint is set as connected only
    in the stretch of synchronous code that follows the fulfilled write
    of that endpoint to the store. *)
Fixpoint stores_first {A : Type} (held : option string) (p : Prog A) : Prop :=
  match p with
  | Ret _ => True
  | Throw _ => True
  | Do a k =>
      match a with
      | setBaseUrl (Some u) => held = Some u
      | _ => True
      end /\ stores_first held k
  | new_Zeroconf k => forall zc, stores_first held (k zc)
  | Await r k => forall x, stores_first (held_after r x) (k x)
  end.

(** Every task of the machine is such a program. *)
Definition tasks_store_first (m : Machine) : Prop :=
  Forall (stores_first None) (tasks m).

(** The URL schemes of an endpoint. *)
Definition recognized_scheme (u : string) : bool :=
  startsWith u "http://" || startsWith u "https://".

(** A payload of the expected structure: an object whose [baseUrl] is a
    string that begins with a recognized scheme. *)
Definition expected_payload (v : Js.Value) : Prop :=
  exists u, Js.get v "baseUrl" = Js.Str u /\ recognized_scheme u = true.

(** "Decoding fails whenever the payload is not parseable as the
    expected structure or the embedded baseUrl does not begin with a
    recognized URL scheme, and such a failure does not change the
    connection state": the handler only shows the alert. *)
Definition unexpected_codes_are_rejected (JSON_parse : string -> option Js.Value) : Prop :=
  forall (data : string) (w : World) (s : Sys),
    match JSON_parse data with
    | None => True
    | Some v => ~ expected_payload v
    end ->
    let r := exec w (onQrScanned JSON_parse data) s in
    (exists msg, trace r = [Did (Alert_alert "QR invalido" msg)]) /\
    baseUrl (final r) = baseUrl s.

End Claims.

(** ** Statements about the table, the request helper and the other programs: vocabulary *)

Module ServerFacts.
Import Server.

(** Distinct ids, all positive and not above the counter of
    [AUTOINCREMENT]. *)
Definition ids_ok (db : Db) : Prop :=
  NoDup (id <$> items db) /\ Forall (fun r => 0 < id r <= sequence db) (items db).

(** The largest id in a table. *)
Definition max_id (l : list Row) : Z := foldr (fun r m => Z.max (id r) m) 0 l.

(** A route parameter that [Number] reads as the positive integer [i]. *)
Definition reads_as (Number_ : string -> JsNumber) (p : string) (i : Z) : Prop :=
  Number_ p = Finite (inject_Z i) /\ 0 < i.

(** The answers of a session, in order. *)
Fixpoint replies (Number_ : string -> JsNumber) (reqs : list (string * Request)) (db : Db)
  : list Response :=
  match reqs with
  | [] => []
  | (now, req) :: rest =>
      fst (handle Number_ now req db) :: replies Number_ rest (snd (handle Number_ now req db))
  end.

(** The body [express.json()] reads from the [JSON.stringify({ title })]
    a client sends. *)
Definition titled (t : string) : Js.Value := Js.Obj [("title", Js.Str t)].

End ServerFacts.

(** *** [GET /server-info] and [getLanIPv4] *)

Module ServerInfo.

Definition SERVICE_NAME : string := "Ivadent Server".
Definition SERVICE_TYPE : string := "ivadent".

(** [process.env.PORT || 4310] *)
Definition PORT (env_PORT : option string) : Js.Value :=
  match env_PORT with
  | Some (String c r) => Js.Str (String c r)
  | _ => Js.Num 4310
  end.

(** What [getLanIPv4] reads of an entry of [os.networkInterfaces()]. *)
Record NetworkInterfaceInfo : Type :=
  { family : string; internal : bool; address : string }.

(** [n.family === "IPv4" && !n.internal] *)
Definition lan_ipv4 (n : NetworkInterfaceInfo) : bool :=
  String.eqb (family n) "IPv4" && negb (internal n).

(** [[...new Set(ips)]]: the first occurrence of each element, in order. *)
Fixpoint new_Set (seen ips : list string) : list string :=
  match ips with
  | [] => []
  | ip :: rest =>
      if bool_decide (ip ∈ seen) then new_Set seen rest
      else ip :: new_Set (ip :: seen) rest
  end.

(** The addresses pushed by the two loops; [nets] lists the interface
    names in the order of [Object.keys], each with its entries, if any. *)
Definition pushed (nets : list (string * option (list NetworkInterfaceInfo)))
  : list string :=
  flat_map (fun entry => address <$> List.filter lan_ipv4 (default [] (snd entry))) nets.

Definition getLanIPv4 (nets : list (string * option (list NetworkInterfaceInfo)))
  : list string :=
  new_Set [] (pushed nets).

(** The handler of [GET /server-info]. *)
Definition server_info (env_PORT : option string) (now : string)
    (nets : list (string * option (list NetworkInterfaceInfo))) : Server.Response :=
  match Js.String_ (PORT env_PORT) with
  | Some port =>
      let ips := getLanIPv4 nets in
      let urls := (fun ip => "http://" ++ ip ++ ":" ++ port) <$> ips in
      {| Server.code := 200;
         Server.body :=
           Js.Obj [("ok", Js.Bool true); ("name", Js.Str SERVICE_NAME);
                   ("type", Js.Str SERVICE_TYPE); ("port", PORT env_PORT);
                   ("urls", Js.Arr (Js.Str <$> urls)); ("time", Js.Str now)] |}
  | None => Server.internal_error
  end.

End ServerInfo.

(** *** Endpoints that pass the scanner's test *)

Module Endpoints.
Import JsString Async App Loop.

(** The scanner's test on an endpoint. *)
Definition http (u : string) : Prop := startsWith u "http" = true.

Definition asks_http {R : Type} (r : Request R) : Prop :=
  match r with
  | setItemAsync key v => key = STORE_KEY -> http v
  | _ => True
  end.

Definition answers_http {R : Type} (r : Request R) : Settled R -> Prop :=
  match r in Request R return Settled R -> Prop with
  | getItemAsync key =>
      fun x => match x with
               | Fulfilled (Some v) => key = STORE_KEY -> http v
               | _ => True
               end
  | _ => fun _ => True
  end.

(** On every path of the program along which the store answers with
    such endpoints, only such endpoints are written or connected. *)
Fixpoint keeps_http {A : Type} (p : Prog A) : Prop :=
  match p with
  | Ret _ => True
  | Throw _ => True
  | Do a k =>
      match a with
      | setBaseUrl (Some u) => http u
      | _ => True
      end /\ keeps_http k
  | new_Zeroconf k => forall zc, keeps_http (k zc)
  | Await r k => asks_http r /\ forall x, answers_http r x -> keeps_http (k x)
  end.

Definition http_state (s : Sys) : Prop :=
  (forall v, secureStore s !! STORE_KEY = Some v -> http v) /\
  (forall u, baseUrl s = Some u -> http u).

Definition http_machine (m : Machine) : Prop :=
  http_state (sys m) /\ Forall keeps_http (tasks m).

End Endpoints.

(** *** The request helper [api] and the list of the phone *)

Module Api.
Import JsString Async.

(** [{ "Content-Type": "application/json" }] *)
Definition json_headers : Js.Value :=
  Js.Obj [("Content-Type", Js.Str "application/json")].

(** [api(baseUrl, path, options)] of the phone, of the Expo screen and of
    the web page; [options] are the properties spread over the headers
    (none when the argument is left out). *)
Definition api (baseUrl path : string) (options : list (string * Js.Value))
  : Prog Js.Value :=
  res ← await (fetch (baseUrl ++ path) (Js.Obj (("headers", json_headers) :: options)));
  data ← await_catch (json res) (Js.Obj []);
  if negb (res_ok res) then
    match Js.String_ (Js.or_ (Js.get data "error")
                        (Js.Str ("HTTP " ++ Js.string_of_Z (res_status res)))) with
    | Some msg => Throw (Js.new_Error msg)
    | None => Throw Js.TypeError_primitive
    end
  else mret data.

(** What a fetch sees of an answer of the server: [ok] for the statuses
    200 to 299, and the JSON body ([res.json(...)] on the server); the
    error page of a thrown handler is not JSON. *)
Definition over_the_wire (r : Server.Response) : Response :=
  {| res_ok := (200 <=? Server.code r) && (Server.code r <? 300);
     res_status := Server.code r;
     res_json := match Server.body r with
                 | Js.Undefined => None
                 | b => Some b
                 end |}.

(** What a call of [api] comes to, by the response fetched. *)
Definition api_outcome (res : Response) : Outcome Js.Value :=
  let data := default (Js.Obj []) (res_json res) in
  if res_ok res then Returned data
  else match Js.String_ (Js.or_ (Js.get data "error")
                           (Js.Str ("HTTP " ++ Js.string_of_Z (res_status res)))) with
       | Some msg => Raised (Js.new_Error msg)
       | None => Raised Js.TypeError_primitive
       end.

End Api.

Module Crud.
Import JsString Async Api.

(** [title.trim().length > 0], the guard of the add button in the three
    clients. *)
Definition canAdd (title : string) : bool :=
  (0 <? String.length (trim title))%nat.

(** [load] of the phone, in a render whose [baseUrl] is the given one.
    The list [items] is not part of [Sys]: the result is the argument of
    [setItems], when it is called. *)
Definition load (baseUrl : option string) : Prog (option Js.Value) :=
  match baseUrl with
  | Some (String c r) =>
      act (setErr EmptyString);;
      try_catch (rows ← api (String c r) "/items" []; mret (Some rows))
                (fun e => act (setErr (Js.describe e));; mret None)
  | _ => mret None
  end.

(** The title [edit] of the web page sends for the answer of [prompt]
    ([None]: the dialog was cancelled); no request is made when there is
    none. *)
Definition edit_title (next : option string) : option string :=
  match next with
  | None => None
  | Some next =>
      let t := trim next in
      if negb (nonempty t) then None else Some t
  end.

(** The object the web page encodes in its QR code. *)
Definition qrPayload (apiBase : string) (ts : Z) : Js.Value :=
  Js.Obj [("baseUrl", Js.Str apiBase); ("token", Js.Str "demo-token"); ("ts", Js.Num ts)].

End Crud.

(** ** Properties of the client *)

Import JsString Async App Loop Claims.

Ltac pick_event H i :=
  repeat (destruct i as [|i]; cbn in H; try discriminate H).

(** The probe does not depend on the state of the component. *)
Lemma probe_any_state (w : World) (url : string) (s : Sys) :
  outcome (exec w (tryHealth url) s) = probe w url.
Proof.
  unfold probe, tryHealth. cbn.
  destruct (net w (url ++ "/health")) as [[res|e]|]; cbn; try reflexivity.
  destruct (res_ok res); cbn; try reflexivity.
  destruct (res_json res); reflexivity.
Qed.

Lemma probe_true_inv (w : World) (url : string) :
  probe w url = Returned true ->
  exists res data,
    net w (url ++ "/health") = Some (Fulfilled res) /\ res_ok res = true /\
    res_json res = Some data /\ Js.truthy (Js.get data "ok") = true.
Proof.
  unfold probe, tryHealth. cbn.
  destruct (net w (url ++ "/health")) as [[res|e]|]; cbn; try discriminate.
  destruct (res_ok res) eqn:Hok; cbn; try discriminate.
  destruct (res_json res) as [data|] eqn:Hjson; cbn; try discriminate.
  intros H. exists res, data. repeat split; auto. congruence.
Qed.

Lemma probe_failed_inv (w : World) (url : string) :
  (probe w url = Returned false \/ exists e, probe w url = Raised e) ->
  (exists e, net w (url ++ "/health") = Some (Rejected e)) \/
  (exists res, net w (url ++ "/health") = Some (Fulfilled res) /\
               (res_ok res = false \/
                res_ok res = true /\
                Js.truthy (Js.get (default Js.Null (res_json res)) "ok") = false)).
Proof.
  unfold probe, tryHealth. cbn.
  destruct (net w (url ++ "/health")) as [[res|e]|]; cbn.
  - intros H. right. exists res. split; [reflexivity|].
    destruct (res_ok res); cbn in *; [right|left; reflexivity].
    split; [reflexivity|].
    destruct (res_json res); cbn in *; destruct H as [H|[e H]]; congruence.
  - intros _. left. eauto.
  - intros [H|[e H]]; discriminate.
Qed.

(** *** The store is written before the endpoint is set *)

Lemma stores_first_weaken {A} (p : Prog A) (h : option string) :
  stores_first None p -> stores_first h p.
Proof.
  induction p as [a|e|a k IH|k IH|R r k IH]; cbn; auto.
  intros [Ha Hk]. split; [|auto]. destruct a; auto. destruct u; auto. discriminate.
Qed.

Lemma stores_first_bind {A B} (p : Prog A) (f : A -> Prog B) (h : option string) :
  stores_first h p -> (forall a, stores_first None (f a)) -> stores_first h (p ≫= f).
Proof.
  intros Hp Hf. revert h Hp.
  induction p as [a|e|a k IH|k IH|R r k IH]; intros h Hp; cbn in *.
  - apply stores_first_weaken, Hf.
  - exact I.
  - destruct Hp as [Ha Hk]. split; [exact Ha|]. apply IH, Hk.
  - intros zc. apply IH, Hp.
  - intros x. apply IH, Hp.
Qed.

Lemma stores_first_try_catch {A} (p : Prog A) (hd : Js.Error -> Prog A) (h : option string) :
  stores_first h p -> (forall e, stores_first None (hd e)) -> stores_first h (try_catch p hd).
Proof.
  intros Hp Hf. revert h Hp.
  induction p as [a|e|a k IH|k IH|R r k IH]; intros h Hp; cbn in *.
  - exact I.
  - apply stores_first_weaken, Hf.
  - destruct Hp as [Ha Hk]. split; [exact Ha|]. apply IH, Hk.
  - intros zc. apply IH, Hp.
  - intros x. apply IH, Hp.
Qed.

Lemma connect_stores_first url : stores_first None (connectWithBaseUrl url).
Proof.
  unfold connectWithBaseUrl, tryHealth. cbn. split; [exact I|].
  intros [res|e]; cbn; [|exact I].
  destruct (res_ok res); cbn; [|auto].
  intros [v|e]; cbn; [|auto].
  destruct (Js.truthy (Js.get v "ok")); cbn; [|auto].
  intros [[]|e']; cbn; auto.
Qed.

Lemma perform_store a s : secureStore (perform a s) = secureStore s.
Proof. destruct a; reflexivity. Qed.

Lemma perform_baseUrl a s :
  baseUrl (perform a s) = match a with setBaseUrl u => u | _ => baseUrl s end.
Proof. destruct a; reflexivity. Qed.

Lemma advance_stores_first {A} (p : Prog A) (h : option string) (s : Sys) :
  stores_first h p ->
  secureStore (snd (advance p s)) = secureStore s /\
  stores_first None (fst (advance p s)) /\
  (forall u, baseUrl (snd (advance p s)) = Some u -> baseUrl s = Some u \/ h = Some u).
Proof.
  revert s. induction p as [a|e|a k IH|k IH|R r k IH]; intros s Hp; cbn in *.
  - auto.
  - auto.
  - destruct Hp as [Ha Hk]. destruct (IH (perform a s) Hk) as (Hs & Hf & Hb).
    rewrite Hs, perform_store. split; [reflexivity|]. split; [exact Hf|].
    intros u Hu. apply Hb in Hu. destruct Hu as [Hu|Hu]; [|auto].
    rewrite perform_baseUrl in Hu. destruct a; auto.
    subst. auto.
  - destruct (IH (length (zeroconfs s)) (snd (create_zeroconf s)) (Hp _)) as (Hs & Hf & Hb).
    auto.
  - auto.
Qed.

Lemma await_stores_first {R} (r : Request R) : stores_first None (await r).
Proof. cbn. intros [v|e]; exact I. Qed.

Lemma act_stores_first a :
  match a with setBaseUrl (Some _) => False | _ => True end ->
  stores_first None (act a).
Proof. intros Ha. cbn. split; [|exact I]. destruct a; auto. destruct u; [tauto|exact I]. Qed.

Lemma connectFromSaved_stores_first : stores_first None connectFromSaved.
Proof.
  unfold connectFromSaved. apply stores_first_bind; [apply await_stores_first|].
  intros [[|c r]|]; try exact I.
  apply stores_first_try_catch; [|intros e; exact I].
  apply stores_first_bind; [apply connect_stores_first|intros []; exact I].
Qed.

Lemma discovery_stores_first c : stores_first None (startZeroconfDiscovery c).
Proof. cbn. intros zc. repeat split. Qed.

Lemma startup_stores_first : stores_first None startup.
Proof.
  unfold startup. apply stores_first_bind; [apply connectFromSaved_stores_first|].
  intros [|]; [exact I|].
  apply stores_first_bind; [apply discovery_stores_first|intros zc; exact I].
Qed.

Lemma olvidar_stores_first : stores_first None olvidar.
Proof. cbn. intros [[]|e]; cbn; auto. Qed.

Lemma on_resolved_stores_first zc service : stores_first None (on_resolved zc service).
Proof.
  unfold on_resolved.
  apply stores_first_try_catch; [|intros e; cbn; auto].
  destruct (find_address service) as [e|ip]; [exact I|].
  cbv zeta. destruct (negb (Js.truthy ip)); [exact I|].
  destruct (Js.String_ ip) as [x|]; [|exact I].
  destruct (Js.String_ _) as [port|]; [|exact I].
  apply stores_first_bind; [apply connect_stores_first|intros []; cbn; auto].
Qed.

Lemma on_error_stores_first e : stores_first None (on_error e).
Proof. cbn. auto. Qed.

Lemma on_timeout_stores_first c : stores_first None (on_timeout c).
Proof. unfold on_timeout. destruct (no_baseUrl c); cbn; auto. Qed.

Lemma onQrScanned_stores_first parse data : stores_first None (onQrScanned parse data).
Proof.
  unfold onQrScanned.
  apply stores_first_try_catch; [|intros e; cbn; auto].
  destruct (parse data) as [parsed|]; [|exact I].
  destruct (scanned_url parsed) as [url|]; [|exact I].
  destruct (negb (startsWith _ _)); [exact I|].
  apply stores_first_bind; [cbn; auto|intros []; apply connect_stores_first].
Qed.

Lemma spawn_stores_first (p : Prog unit) (m : Machine) :
  stores_first None p ->
  tasks_store_first m ->
  tasks_store_first (spawn p m) /\
  secureStore (sys (spawn p m)) = secureStore (sys m) /\
  (forall u, baseUrl (sys (spawn p m)) = Some u -> baseUrl (sys m) = Some u).
Proof.
  intros Hp Hm. unfold spawn.
  destruct (advance_stores_first p None (sys m) Hp) as (Hs & Hf & Hb).
  destruct (advance p (sys m)) as [p' s']. cbn in *.
  split; [apply Forall_app; split; [exact Hm|constructor; [exact Hf|constructor]]|].
  split; [exact Hs|].
  intros u Hu. destruct (Hb u Hu) as [H|H]; [exact H|discriminate H].
Qed.

Lemma settle_held {R} (a : Answer) (s s' : Sys) (r : Request R) (x : Settled R) :
  settle a s r = Some (x, s') ->
  baseUrl s' = baseUrl s /\
  (forall u, held_after r x = Some u -> secureStore s' !! STORE_KEY = Some u).
Proof.
  destruct r; cbn; destruct a; intros [= <- <-] || intros [=]; cbn;
    (split; [reflexivity|]); try discriminate.
  intros u. destruct (String.eqb_spec key STORE_KEY) as [->|]; [|discriminate].
  intros [= <-]. apply lookup_insert_eq.
Qed.

Lemma step_stores_first parse (ev : Event) (m m' : Machine) :
  tasks_store_first m ->
  step parse ev m = Some m' ->
  tasks_store_first m' /\
  (forall u, baseUrl (sys m') = Some u ->
             baseUrl (sys m) = Some u \/ secureStore (sys m') !! STORE_KEY = Some u).
Proof.
  intros Hm Hstep.
  assert (Hspawn : forall p m0,
             stores_first None p -> tasks_store_first m0 ->
             baseUrl (sys m0) = baseUrl (sys m) ->
             tasks_store_first (spawn p m0) /\
             (forall u, baseUrl (sys (spawn p m0)) = Some u ->
                        baseUrl (sys m) = Some u \/
                        secureStore (sys (spawn p m0)) !! STORE_KEY = Some u)).
  { intros p m0 Hp Hm0 Hb. destruct (spawn_stores_first p m0 Hp Hm0) as (H1 & _ & H3).
    split; [exact H1|]. intros u Hu. left. rewrite <- Hb. apply H3, Hu. }
  destruct ev; cbn [step] in Hstep.
  - injection Hstep as <-. apply Hspawn; auto using startup_stores_first.
  - injection Hstep as <-. apply Hspawn; auto using olvidar_stores_first.
  - injection Hstep as <-. apply Hspawn; [|exact Hm|reflexivity].
    cbn. intros zc. repeat split.
  - injection Hstep as <-. apply Hspawn; [|exact Hm|reflexivity]. cbn. auto.
  - destruct (qrOpen (sys m)); [|discriminate].
    injection Hstep as <-. apply Hspawn; auto using onQrScanned_stores_first.
  - destruct (listening (sys m) zc "resolved"); [|discriminate].
    injection Hstep as <-. apply Hspawn; auto using on_resolved_stores_first.
  - destruct (listening (sys m) zc "error"); [|discriminate].
    injection Hstep as <-. apply Hspawn; auto using on_error_stores_first.
  - destruct (timers (sys m) !! timer) as [t|]; [|discriminate].
    destruct (fired t); [discriminate|].
    injection Hstep as <-. apply Hspawn; auto using on_timeout_stores_first.
  - destruct (tasks m !! task) as [p|] eqn:Hp; [|discriminate].
    assert (Hsafe : stores_first None p).
    { unfold tasks_store_first in Hm. rewrite Forall_forall in Hm.
      apply Hm. eapply list_elem_of_lookup_2, Hp. }
    destruct p as [u|e|a0 k|k|R r k]; cbn [resume] in Hstep; try discriminate.
    destruct (settle a (sys m) r) as [[x s1]|] eqn:Hsettle; [|discriminate].
    destruct (settle_held a _ _ r x Hsettle) as (Hb1 & Hheld).
    cbn in Hsafe.
    destruct (advance_stores_first (k x) (held_after r x) s1 (Hsafe x)) as (Hs & Hf & Hb).
    destruct (advance (k x) s1) as [p' s']. cbn in *.
    injection Hstep as <-. cbn. split.
    + unfold tasks_store_first. cbn.
      apply Forall_insert; [exact Hm|exact Hf].
    + intros u Hu. destruct (Hb u Hu) as [H|H].
      * left. rewrite <- Hb1. exact H.
      * right. rewrite Hs. apply Hheld, H.
Qed.

Lemma run_stores_first parse (evs : list Event) (m0 m1 : Machine) :
  tasks_store_first m0 -> run parse evs m0 = Some m1 -> tasks_store_first m1.
Proof.
  revert m0. induction evs as [|ev evs IH]; intros m0 H0; cbn.
  - intros [= <-]. exact H0.
  - destruct (step parse ev m0) as [m0'|] eqn:Hs; [|discriminate].
    apply IH. eapply step_stores_first; eauto.
Qed.

(** Along one run of [connectWithBaseUrl]: probe, then write, then set. *)
Lemma connect_run_order
    (w : World) (s : Sys) (url : string) (i : nat) (u : option string) :
  let r := exec w (connectWithBaseUrl url) s in
  trace r !! i = Some (Did (setBaseUrl u)) ->
  u = Some url /\
  outcome (exec w (tryHealth url) s) = Returned true /\
  (exists res data j k,
      (j < k)%nat /\ (k < i)%nat /\
      trace r !! j = Some (Fetched (url ++ "/health") Js.Undefined (Fulfilled res)) /\
      res_ok res = true /\
      trace r !! S j = Some (Decoded res (Fulfilled data)) /\
      Js.truthy (Js.get data "ok") = true /\
      trace r !! k = Some (SetItem STORE_KEY url (Fulfilled tt))) /\
  secureStore (final r) !! STORE_KEY = Some url /\
  baseUrl (final r) = Some url.
Proof.
  cbn zeta. unfold connectWithBaseUrl, tryHealth. cbn.
  destruct (net w (url ++ "/health")) as [[res|e]|] eqn:Hnet; cbn;
    [destruct (res_ok res) eqn:Hok; cbn;
     [destruct (res_json res) as [data|] eqn:Hjson; cbn;
      [destruct (Js.truthy (Js.get data "ok")) eqn:Hmark; cbn;
       [destruct (setItem_error w) as [e|] eqn:Hset; cbn|]|]|]|..];
    intros Hi; pick_event Hi i.
  injection Hi as <-.
  split; [reflexivity|]. split; [reflexivity|].
  split.
  - exists res, data, 1%nat, 3%nat. cbn. repeat split; try lia; auto.
  - split; [apply lookup_insert_eq | reflexivity].
Qed.

(** C1. Whenever a run of [connectWithBaseUrl url] sets the connected
    endpoint, it sets it to [url]; the health request for [url] was
    answered with success and its body carried a truthy marker (so
    [tryHealth url] returned [true]) strictly earlier in the run, the
    secure store accepted [url] under [STORE_KEY] after the probe and
    before the endpoint was set, and the store holds [url] when the run
    ends.  And however the handlers of the component interleave, at every
    event after which [url] is newly the connected endpoint the store
    holds [url]. *)
Theorem connected_after_probe_and_store :
  (forall (w : World) (s : Sys) (url : string) (i : nat) (u : option string),
      let r := exec w (connectWithBaseUrl url) s in
      trace r !! i = Some (Did (setBaseUrl u)) ->
      u = Some url /\
      outcome (exec w (tryHealth url) s) = Returned true /\
      (exists res data j k,
          (j < k)%nat /\ (k < i)%nat /\
          trace r !! j = Some (Fetched (url ++ "/health") Js.Undefined (Fulfilled res)) /\
          res_ok res = true /\
          trace r !! S j = Some (Decoded res (Fulfilled data)) /\
          Js.truthy (Js.get data "ok") = true /\
          trace r !! k = Some (SetItem STORE_KEY url (Fulfilled tt))) /\
      secureStore (final r) !! STORE_KEY = Some url /\
      baseUrl (final r) = Some url) /\
  (forall (JSON_parse : string -> option Js.Value) (store : gmap string string)
          (evs : list Event) (ev : Event) (m m' : Machine) (url : string),
      run JSON_parse evs (boot store) = Some m ->
      step JSON_parse ev m = Some m' ->
      baseUrl (sys m') = Some url ->
      baseUrl (sys m) <> Some url ->
      secureStore (sys m') !! STORE_KEY = Some url).
Proof.
  split; [exact connect_run_order|].
  intros JSON_parse store evs ev m m' url Hrun Hstep Hu Hnew.
  assert (Hm : tasks_store_first m).
  { eapply run_stores_first; [|exact Hrun]. constructor. }
  destruct (step_stores_first JSON_parse ev m m' Hm Hstep) as [_ H].
  destruct (H url Hu) as [H1|H1]; [contradiction|exact H1].
Qed.

Lemma connected_after_probe_and_store_witness :
  let r := exec (all_alive None) (connectWithBaseUrl "http://192.168.1.50:4310") (initial ∅) in
  secureStore (final r) !! STORE_KEY = Some "http://192.168.1.50:4310" /\
  baseUrl (final r) = Some "http://192.168.1.50:4310".
Proof.
  destruct connected_after_probe_and_store as [H _].
  apply (H (all_alive None) (initial ∅)
           "http://192.168.1.50:4310" 4%nat (Some "http://192.168.1.50:4310")).
  reflexivity.
Defined.

(** C2, as stated, fails: when the secure store rejects the write that
    follows the successful probe of the saved endpoint, the exception is
    caught by [connectFromSaved], which returns [false], and the start-up
    effect goes on to start discovery. *)
Lemma saved_endpoint_write_failure : ~ saved_endpoint_skips_discovery.
Proof.
  intros H.
  specialize (H (all_alive (Some keychain_error))
                {[ STORE_KEY := "http://192.168.1.50:4310" ]}
                "http://192.168.1.50:4310").
  destruct H as [H _]; try reflexivity; try discriminate.
Qed.

(** C2 (amended). For every non-empty saved endpoint [E] that the store
    returns at start-up, whose probe succeeds and whose write back to the
    store succeeds, the start-up effect ends connected to [E] and never
    touches the discovery channel: no [Zeroconf] instance is created, no
    scan is started, no listener or timer is registered. *)
Theorem saved_endpoint_connects
    (w : World) (store : gmap string string) (E : string) :
  store !! STORE_KEY = Some E ->
  E <> EmptyString ->
  getItem_error w = None ->
  setItem_error w = None ->
  probe w E = Returned true ->
  let r := exec w startup (initial store) in
  outcome r = Returned tt /\
  baseUrl (final r) = Some E /\
  status (final r) = "Conectado" /\
  secureStore (final r) !! STORE_KEY = Some E /\
  zeroconfs (final r) = [] /\
  timers (final r) = [] /\
  no_discovery (trace r) = true.
Proof.
  intros Hstore HE Hget Hset Hprobe.
  destruct (probe_true_inv _ _ Hprobe) as (res & data & Hnet & Hok & Hjson & Hmark).
  destruct E as [|c E]; [congruence|].
  cbn zeta. unfold startup, connectFromSaved, connectWithBaseUrl, tryHealth.
  cbn. rewrite Hget. cbn. rewrite Hstore. cbn in Hnet |- *.
  rewrite Hnet. cbn. rewrite Hok. cbn. rewrite Hjson. cbn. rewrite Hmark. cbn.
  rewrite Hset. cbn.
  repeat split; try reflexivity.
  apply lookup_insert_eq.
Qed.

Lemma saved_endpoint_connects_witness :
  let r := exec (all_alive None) startup
             (initial {[ STORE_KEY := "http://192.168.1.50:4310" ]}) in
  outcome r = Returned tt /\
  baseUrl (final r) = Some "http://192.168.1.50:4310" /\
  status (final r) = "Conectado" /\
  secureStore (final r) !! STORE_KEY = Some "http://192.168.1.50:4310" /\
  zeroconfs (final r) = [] /\
  timers (final r) = [] /\
  no_discovery (trace r) = true.
Proof.
  apply (saved_endpoint_connects (all_alive None)
           {[ STORE_KEY := "http://192.168.1.50:4310" ]} "http://192.168.1.50:4310");
    try reflexivity.
  discriminate.
Defined.

(** C3. For every saved endpoint [E] that the store returns at start-up
    and whose probe fails (it returns [false] or raises), the start-up
    effect ends searching: nothing is connected, the status announces the
    multicast search, one [Zeroconf] instance is scanning for the service
    type with both listeners registered, the hint timer is set, and the
    secure store is exactly what it was, so it still returns [E]. *)
Theorem failed_saved_endpoint_starts_discovery
    (w : World) (store : gmap string string) (E : string) :
  store !! STORE_KEY = Some E ->
  getItem_error w = None ->
  (probe w E = Returned false \/ exists e, probe w E = Raised e) ->
  let r := exec w startup (initial store) in
  outcome r = Returned tt /\
  baseUrl (final r) = None /\
  status (final r) = "Buscando por mDNS (Zeroconf)..." /\
  zeroconfs (final r) = [started_channel] /\
  listening (final r) 0 "resolved" = true /\
  timers (final r) = [{| captured := None; delay := 6000; fired := false |}] /\
  secureStore (final r) = store /\
  secureStore (final r) !! STORE_KEY = Some E.
Proof.
  intros Hstore Hget Hprobe.
  apply probe_failed_inv in Hprobe.
  cbn zeta. unfold startup, connectFromSaved, connectWithBaseUrl, tryHealth.
  cbn. rewrite Hget. cbn. rewrite Hstore.
  destruct E as [|c E]; cbn; [repeat split; auto|].
  cbn in Hprobe.
  destruct Hprobe as [[e Hnet]|(res & Hnet & [Hok|[Hok Hmark]])];
    rewrite Hnet; cbn.
  - repeat split; auto.
  - rewrite Hok. cbn. repeat split; auto.
  - rewrite Hok. cbn.
    destruct (res_json res) as [data|]; cbn in Hmark |- *;
      try rewrite Hmark; cbn; repeat split; auto.
Qed.

Lemma failed_saved_endpoint_starts_discovery_witness :
  let r := exec unreachable startup
             (initial {[ STORE_KEY := "http://192.168.1.50:4310" ]}) in
  outcome r = Returned tt /\
  baseUrl (final r) = None /\
  status (final r) = "Buscando por mDNS (Zeroconf)..." /\
  zeroconfs (final r) = [started_channel] /\
  listening (final r) 0 "resolved" = true /\
  timers (final r) = [{| captured := None; delay := 6000; fired := false |}] /\
  secureStore (final r) = {[ STORE_KEY := "http://192.168.1.50:4310" ]} /\
  secureStore (final r) !! STORE_KEY = Some "http://192.168.1.50:4310".
Proof.
  apply (failed_saved_endpoint_starts_discovery unreachable
           {[ STORE_KEY := "http://192.168.1.50:4310" ]} "http://192.168.1.50:4310");
    try reflexivity.
  right. eexists. reflexivity.
Defined.




(** What the scanner handlers do with a payload that decodes to [url]. *)
Lemma scanned_ok (JSON_parse : string -> option Js.Value) (data : string)
    (v : Js.Value) (url : string) :
  JSON_parse data = Some v ->
  scanned_url v = Some url ->
  startsWith url "http" = true ->
  onQrScanned JSON_parse data =
    try_catch (act (setQrOpen false);; connectWithBaseUrl url)
      (fun e => act (Alert_alert "QR invalido" (Js.describe e))) /\
  LanCrudScreen.onQrData JSON_parse data =
    try_catch (act (setQrOpen false);; LanCrudScreen.connectWithBaseUrl url)
      (fun e => act (Alert_alert "QR inválido" (Js.describe e))).
Proof.
  intros Hparse Hurl Hhttp.
  unfold onQrScanned, LanCrudScreen.onQrData. rewrite Hparse.
  fold (scanned_url v). rewrite Hurl, Hhttp. split; reflexivity.
Qed.

Lemma scanned_bad (JSON_parse : string -> option Js.Value) (data : string) :
  (JSON_parse data = None \/
   exists v, JSON_parse data = Some v /\
             match scanned_url v with
             | Some url => startsWith url "http" = false
             | None => True
             end) ->
  exists msg msg',
    onQrScanned JSON_parse data = act (Alert_alert "QR invalido" msg) /\
    LanCrudScreen.onQrData JSON_parse data = act (Alert_alert "QR inválido" msg').
Proof.
  unfold onQrScanned, LanCrudScreen.onQrData.
  intros [Hparse|(v & Hparse & Hbad)]; rewrite Hparse.
  - eexists _, _. split; reflexivity.
  - fold (scanned_url v). destruct (scanned_url v) as [url|].
    + rewrite Hbad. eexists _, _. split; reflexivity.
    + eexists _, _. split; reflexivity.
Qed.

Lemma trim_keeps_first (c : ascii) (r : string) :
  is_ws c = false -> exists r', trim (String c r) = String c r'.
Proof.
  intros Hc. unfold trim. cbn [trimStart]. rewrite Hc. cbn [trimEnd].
  destruct (trimEnd r); [rewrite Hc|]; eauto.
Qed.

Lemma string_of_Z_first (z : Z) :
  exists c r, Js.string_of_Z z = String c r /\ is_ws c = false /\ Ascii.eqb "h" c = false.
Proof.
  unfold Js.string_of_Z, NilZero.string_of_int, NilZero.string_of_uint.
  destruct (Z.to_int z) as [d|d]; [destruct d|]; cbn;
    eexists _, _; repeat split; reflexivity.
Qed.

(** Values of [baseUrl] that never pass the scanner's test. *)
Lemma scanned_url_rejects (v : Js.Value) :
  match Js.get v "baseUrl" with
  | Js.Str s => startsWith (trim s) "http" = false
  | Js.Arr _ => False
  | _ => True
  end ->
  match scanned_url v with
  | Some url => startsWith url "http" = false
  | None => True
  end.
Proof.
  unfold scanned_url, Js.or_.
  destruct (Js.get v "baseUrl") as [| |[|]|z|s|l|fs]; cbn [Js.truthy];
    try reflexivity; try tauto.
  - destruct (negb (Z.eqb z 0)); [|reflexivity].
    cbn [Js.String_ fmap option_fmap option_map].
    destruct (string_of_Z_first z) as (c & r & -> & Hws & Hh).
    destruct (trim_keeps_first c r Hws) as [r' ->].
    cbn [startsWith]. rewrite Hh. reflexivity.
  - destruct s; cbn [nonempty Js.String_ fmap option_fmap option_map]; auto.
  - intros _. cbn [Js.String_]. destruct (Js.field fs "toString"); reflexivity.
Qed.

(** What [String(parsed?.baseUrl || E).trim()] is, by the shape of
    [baseUrl]. *)
Lemma scanned_url_shapes (v : Js.Value) :
  match Js.get v "baseUrl" with
  | Js.Str s => scanned_url v = Some (trim s)
  | Js.Arr l => scanned_url v = trim <$> Js.String_ (Js.Arr l)
  | _ => match scanned_url v with
         | Some url => startsWith url "http" = false
         | None => True
         end
  end.
Proof.
  pose proof (scanned_url_rejects v) as H.
  destruct (Js.get v "baseUrl") as [| |[|]|z|s|l|fs] eqn:E; try (apply H; exact I).
  - unfold scanned_url, Js.or_. rewrite E. destruct s; reflexivity.
  - unfold scanned_url, Js.or_. rewrite E. reflexivity.
Qed.

(** C5, as stated, fails: the handler does not check the structure of
    the payload, and its only test of the text is that it starts with
    the four characters [http].  The payload [{"baseUrl":"httpfoo"}],
    whose [baseUrl] begins with no URL scheme, is decoded: the scanner
    is closed and, the probe and the write succeeding, [httpfoo] is
    stored and connected. *)
Lemma scanner_accepts_unexpected_codes : ~ unexpected_codes_are_rejected JSON.parse.
Proof.
  intros H.
  specialize (H (JSON.text "{'baseUrl':'httpfoo'}") (all_alive None) (initial ∅)).
  destruct H as [_ H].
  - intros (u & Hu & Hscheme). vm_compute in Hu. injection Hu as <-.
    vm_compute in Hscheme. discriminate Hscheme.
  - vm_compute in H. discriminate H.
Qed.

(** C5, amended.  The payload [{"baseUrl":"http://192.168.1.50:4310"}]
    makes the scanner handler go on to connect to
    [http://192.168.1.50:4310]; the payloads [{"baseUrl":"not-a-url"}]
    and [{}] end in the "QR invalido" alert.  In general, whenever
    [JSON.parse] throws, or the conversion [String(parsed?.baseUrl || "")]
    throws, or its trimmed result does not start with [http], the
    handler only shows that alert: no probe is made and the connected
    endpoint, the status, the error line, the scanner flag and the store
    stay as they were; otherwise it closes the scanner and connects to
    that string.  The string tested is the trimmed [baseUrl] when that
    is a string, and the trimmed comma-joined text of its elements when
    it is an array; the test fails when the payload is not an object or
    its [baseUrl] is missing, null, a boolean, a number or an object.
    So payloads that are not of the expected structure, or whose text
    begins with no URL scheme, are decoded all the same:
    [{"baseUrl":"httpfoo"}] connects to [httpfoo],
    [{"baseUrl":["http://a","b"]}] to [http://a,b], and
    [{"baseUrl":"  http://192.168.1.50:4310 "}] to the trimmed URL.  The
    same holds for [onQrData] of the Expo screen. *)
Theorem scanner_decoding :
  (onQrScanned JSON.parse (JSON.text "{'baseUrl':'http://192.168.1.50:4310'}") =
     try_catch (act (setQrOpen false);; connectWithBaseUrl "http://192.168.1.50:4310")
       (fun e => act (Alert_alert "QR invalido" (Js.describe e))) /\
   onQrScanned JSON.parse (JSON.text "{'baseUrl':'not-a-url'}") =
     act (Alert_alert "QR invalido" "QR invalido (sin baseUrl)") /\
   onQrScanned JSON.parse (JSON.text "{}") =
     act (Alert_alert "QR invalido" "QR invalido (sin baseUrl)")) /\
  (LanCrudScreen.onQrData JSON.parse (JSON.text "{'baseUrl':'http://192.168.1.50:4310'}") =
     try_catch (act (setQrOpen false);;
                LanCrudScreen.connectWithBaseUrl "http://192.168.1.50:4310")
       (fun e => act (Alert_alert "QR inválido" (Js.describe e))) /\
   LanCrudScreen.onQrData JSON.parse (JSON.text "{'baseUrl':'not-a-url'}") =
     act (Alert_alert "QR inválido" "QR inválido (sin baseUrl)") /\
   LanCrudScreen.onQrData JSON.parse (JSON.text "{}") =
     act (Alert_alert "QR inválido" "QR inválido (sin baseUrl)")) /\
  (forall (JSON_parse : string -> option Js.Value) (data : string),
      (JSON_parse data = None \/
       exists v, JSON_parse data = Some v /\
                 match scanned_url v with
                 | Some url => startsWith url "http" = false
                 | None => True
                 end) ->
      forall (w : World) (s : Sys),
        let r := exec w (onQrScanned JSON_parse data) s in
        let r' := exec w (LanCrudScreen.onQrData JSON_parse data) s in
        (exists msg, trace r = [Did (Alert_alert "QR invalido" msg)] /\
                     final r = perform (Alert_alert "QR invalido" msg) s) /\
        (exists msg, trace r' = [Did (Alert_alert "QR inválido" msg)] /\
                     final r' = perform (Alert_alert "QR inválido" msg) s) /\
        outcome r = Returned tt /\ outcome r' = Returned tt /\
        baseUrl (final r) = baseUrl s /\ baseUrl (final r') = baseUrl s /\
        status (final r) = status s /\ status (final r') = status s /\
        secureStore (final r) = secureStore s /\ secureStore (final r') = secureStore s /\
        qrOpen (final r) = qrOpen s /\ qrOpen (final r') = qrOpen s) /\
  (forall (JSON_parse : string -> option Js.Value) (data : string)
          (v : Js.Value) (url : string),
      JSON_parse data = Some v ->
      scanned_url v = Some url ->
      startsWith url "http" = true ->
      onQrScanned JSON_parse data =
        try_catch (act (setQrOpen false);; connectWithBaseUrl url)
          (fun e => act (Alert_alert "QR invalido" (Js.describe e))) /\
      LanCrudScreen.onQrData JSON_parse data =
        try_catch (act (setQrOpen false);; LanCrudScreen.connectWithBaseUrl url)
          (fun e => act (Alert_alert "QR inválido" (Js.describe e)))) /\
  (forall v : Js.Value,
      match Js.get v "baseUrl" with
      | Js.Str s => scanned_url v = Some (trim s)
      | Js.Arr l => scanned_url v = trim <$> Js.String_ (Js.Arr l)
      | _ => match scanned_url v with
             | Some url => startsWith url "http" = false
             | None => True
             end
      end) /\
  (onQrScanned JSON.parse (JSON.text "{'baseUrl':'httpfoo'}") =
     try_catch (act (setQrOpen false);; connectWithBaseUrl "httpfoo")
       (fun e => act (Alert_alert "QR invalido" (Js.describe e))) /\
   onQrScanned JSON.parse (JSON.text "{'baseUrl':['http://a','b']}") =
     try_catch (act (setQrOpen false);; connectWithBaseUrl "http://a,b")
       (fun e => act (Alert_alert "QR invalido" (Js.describe e))) /\
   onQrScanned JSON.parse (JSON.text "{'baseUrl':'  http://192.168.1.50:4310 '}") =
     try_catch (act (setQrOpen false);; connectWithBaseUrl "http://192.168.1.50:4310")
       (fun e => act (Alert_alert "QR invalido" (Js.describe e))) /\
   LanCrudScreen.onQrData JSON.parse (JSON.text "{'baseUrl':'httpfoo'}") =
     try_catch (act (setQrOpen false);; LanCrudScreen.connectWithBaseUrl "httpfoo")
       (fun e => act (Alert_alert "QR inválido" (Js.describe e))) /\
   LanCrudScreen.onQrData JSON.parse (JSON.text "{'baseUrl':['http://a','b']}") =
     try_catch (act (setQrOpen false);; LanCrudScreen.connectWithBaseUrl "http://a,b")
       (fun e => act (Alert_alert "QR inválido" (Js.describe e))) /\
   let r := exec (all_alive None)
              (onQrScanned JSON.parse (JSON.text "{'baseUrl':['http://a','b']}"))
              (initial ∅) in
   outcome r = Returned tt /\ baseUrl (final r) = Some "http://a,b" /\
   secureStore (final r) !! STORE_KEY = Some "http://a,b" /\ alerts (final r) = []).
Proof.
  split; [|split; [|split; [|split; [|split]]]].
  - repeat split; vm_compute; reflexivity.
  - repeat split; vm_compute; reflexivity.
  - intros JSON_parse data Hbad w s.
    destruct (scanned_bad JSON_parse data Hbad) as (msg & msg' & -> & ->).
    cbn. repeat split; eauto.
  - apply scanned_ok.
  - apply scanned_url_shapes.
  - repeat split; vm_compute; reflexivity.
Qed.

Lemma scanner_decoding_witness :
  let r := exec (all_alive None) (onQrScanned JSON.parse "not json")
             (initial {[ STORE_KEY := "http://192.168.1.50:4310" ]}) in
  baseUrl (final r) = None /\ status (final r) = "Buscando server...".
Proof.
  destruct scanner_decoding as (_ & _ & H & _).
  destruct (H JSON.parse "not json" (or_introl eq_refl) (all_alive None)
              (initial {[ STORE_KEY := "http://192.168.1.50:4310" ]}))
    as (_ & _ & _ & _ & Hb & _ & Hs & _).
  split; [exact Hb | exact Hs].
Defined.

Lemma find_first (pre post : list Js.Value) (x : Js.Value) :
  Forall (fun y => looks_like_ip y = false) pre ->
  looks_like_ip x = true ->
  List.find looks_like_ip (pre ++ x :: post) = Some x.
Proof.
  induction 1 as [|y pre Hy _ IH]; intros Hx; cbn.
  - rewrite Hx. reflexivity.
  - rewrite Hy. auto.
Qed.

Lemma find_none (l : list Js.Value) :
  Forall (fun y => looks_like_ip y = false) l -> List.find looks_like_ip l = None.
Proof.
  induction 1 as [|y l Hy _ IH]; cbn; [reflexivity|]. rewrite Hy. exact IH.
Qed.

(** C6. When a resolved service offers the address list [l], the handler
    takes the first element of [l] that is a string containing a dot and
    connects to [http://<address>:<port>] ([port] being the advertised
    one or 4310, as a template literal prints it), starting with the
    probe of that URL; when no element of [l] is such a string the
    handler returns at once: it performs no action and awaits nothing, so
    no probe is made and the state is untouched. *)
Theorem resolved_takes_first_dotted_address
    (zc : nat) (service : Js.Value) (l : list Js.Value) :
  Js.get service "addresses" = Js.Arr l ->
  (forall (pre post : list Js.Value) (x : string),
      l = (pre ++ Js.Str x :: post)%list ->
      Forall (fun y => looks_like_ip y = false) pre ->
      includes x "." = true ->
      find_address service = inr (Js.Str x) /\
      forall port : string,
        Js.String_ (Js.or_ (Js.get service "port") (Js.Num DEFAULT_PORT)) = Some port ->
        let url := "http://" ++ x ++ ":" ++ port in
        on_resolved zc service =
          try_catch (connectWithBaseUrl url;; act (zeroconf_stop zc))
            (fun e => act (setErr (Js.describe e))) /\
        forall (w : World) (s : Sys) (a : Settled Response),
          net w (url ++ "/health") = Some a ->
          trace (exec w (on_resolved zc service) s) !! 1%nat =
            Some (Fetched (url ++ "/health") Js.Undefined a)) /\
  (Forall (fun y => looks_like_ip y = false) l ->
   find_address service = inr Js.Undefined /\
   on_resolved zc service = mret tt /\
   forall (w : World) (s : Sys),
     exec w (on_resolved zc service) s =
       {| outcome := Returned tt; final := s; trace := [] |}).
Proof.
  intros Haddr. split.
  - intros pre post x -> Hpre Hx.
    assert (Hfind : find_address service = inr (Js.Str x)).
    { unfold find_address. rewrite Haddr.
      rewrite (find_first pre post (Js.Str x) Hpre Hx). reflexivity. }
    split; [exact Hfind|].
    intros port Hport url.
    assert (Hprog : on_resolved zc service =
                      try_catch (connectWithBaseUrl url;; act (zeroconf_stop zc))
                        (fun e => act (setErr (Js.describe e)))).
    { unfold on_resolved. rewrite Hfind. cbv zeta. rewrite Hport.
      destruct x as [|c x]; [discriminate Hx|]. reflexivity. }
    split; [exact Hprog|].
    intros w s a Hnet. rewrite Hprog.
    unfold connectWithBaseUrl, tryHealth. cbn -[String.append].
    rewrite Hnet. destruct a as [res|e]; cbn -[String.append]; reflexivity.
  - intros Hnone.
    assert (Hfind : find_address service = inr Js.Undefined).
    { unfold find_address. rewrite Haddr.
      rewrite (find_none l Hnone). reflexivity. }
    assert (Hprog : on_resolved zc service = mret tt).
    { unfold on_resolved. rewrite Hfind. reflexivity. }
    split; [exact Hfind|]. split; [exact Hprog|].
    intros w s. rewrite Hprog. reflexivity.
Qed.

Lemma resolved_takes_first_dotted_address_witness :
  on_resolved 0
    (Js.Obj [("addresses", Js.Arr [Js.Str "fe80::1c2a"; Js.Num 7; Js.Str "192.168.1.50";
                                   Js.Str "10.0.0.9"]);
             ("port", Js.Num 4310)]) =
  try_catch (connectWithBaseUrl "http://192.168.1.50:4310";; act (zeroconf_stop 0))
    (fun e => act (setErr (Js.describe e))).
Proof.
  destruct (resolved_takes_first_dotted_address 0
              (Js.Obj [("addresses", Js.Arr [Js.Str "fe80::1c2a"; Js.Num 7;
                                             Js.Str "192.168.1.50"; Js.Str "10.0.0.9"]);
                       ("port", Js.Num 4310)])
              [Js.Str "fe80::1c2a"; Js.Num 7; Js.Str "192.168.1.50"; Js.Str "10.0.0.9"]
              eq_refl) as [H _].
  destruct (H [Js.Str "fe80::1c2a"; Js.Num 7] [Js.Str "10.0.0.9"] "192.168.1.50")
    as [_ Hurl].
  - reflexivity.
  - repeat constructor.
  - reflexivity.
  - apply (Hurl "4310"). reflexivity.
Defined.

(** C7, as stated, fails: a probe that is in flight when "Olvidar" is
    pressed is not cancelled.  Start-up finds nothing saved and starts
    discovery; a service resolves and its probe is awaited; the user
    forgets, which completes; then the probe succeeds, the store is
    written and the state is set to connected. *)
Lemma late_probe_connects_after_forget : ~ forget_is_final JSON.parse.
Proof.
  intros H.
  specialize (H ∅ [Mounted; Settles 0 Completes; Resolved 0 advertised]
                [Settles 1 (Net (Fulfilled (alive "2024-01-01T00:00:00.000Z")));
                 Settles 1 Completes; Settles 1 Completes]).
  destruct (run JSON.parse [Mounted; Settles 0 Completes; Resolved 0 advertised] (boot ∅))
    as [m1|] eqn:H1; [|vm_compute in H1; discriminate H1].
  specialize (H m1).
  destruct (run JSON.parse [Pressed_Olvidar; Settles (length (tasks m1)) Completes] m1)
    as [m2|] eqn:H2;
    [|vm_compute in H1; injection H1 as <-; vm_compute in H2; discriminate H2].
  specialize (H m2).
  destruct (run JSON.parse
              [Settles 1 (Net (Fulfilled (alive "2024-01-01T00:00:00.000Z")));
               Settles 1 Completes; Settles 1 Completes] m2)
    as [m3|] eqn:H3;
    [|vm_compute in H1; injection H1 as <-; vm_compute in H2; injection H2 as <-;
      vm_compute in H3; discriminate H3].
  specialize (H m3 eq_refl eq_refl).
  vm_compute in H1; injection H1 as <-.
  vm_compute in H2; injection H2 as <-.
  vm_compute in H3; injection H3 as <-.
  destruct (H eq_refl eq_refl) as [_ Hidle].
  vm_compute in Hidle. discriminate Hidle.
Qed.

(** C7 (amended). When the deletion of the stored endpoint completes,
    the "Olvidar" handler leaves the state idle (no connected endpoint)
    and the store without an endpoint, from any state.  A probe in flight
    at that moment is not cancelled: [connectWithBaseUrl url] suspended at
    its health request, resumed after the forget with a successful
    answer, writes [url] to the store and sets the state to connected to
    [url]. *)
Theorem forget_then_late_success
    (w : World) (s : Sys) (url : string) (res : Response) (data : Js.Value) :
  deleteItem_error w = None ->
  setItem_error w = None ->
  net w (url ++ "/health") = Some (Fulfilled res) ->
  res_ok res = true ->
  res_json res = Some data ->
  Js.truthy (Js.get data "ok") = true ->
  (forall s0 : Sys,
      let forgot := exec w olvidar s0 in
      outcome forgot = Returned tt /\
      baseUrl (final forgot) = None /\
      secureStore (final forgot) !! STORE_KEY = None /\
      status (final forgot) = "BaseUrl borrada. Busca de nuevo.") /\
  let in_flight := advance (connectWithBaseUrl url) s in
  let forgot := exec w olvidar (snd in_flight) in
  let late := exec w (fst in_flight) (final forgot) in
  (exists k, fst in_flight = Await (fetch (url ++ "/health") Js.Undefined) k) /\
  baseUrl (final forgot) = None /\
  secureStore (final forgot) !! STORE_KEY = None /\
  outcome late = Returned tt /\
  baseUrl (final late) = Some url /\
  status (final late) = "Conectado" /\
  secureStore (final late) !! STORE_KEY = Some url.
Proof.
  intros Hdel Hset Hnet Hok Hjson Hmark.
  split.
  - intros s0. unfold olvidar. cbn. rewrite Hdel. cbn.
    repeat split; auto. apply lookup_delete_eq.
  - unfold olvidar, connectWithBaseUrl, tryHealth. cbn.
    rewrite Hdel. cbn. rewrite Hnet. cbn. rewrite Hok. cbn.
    rewrite Hjson. cbn. rewrite Hmark. cbn. rewrite Hset. cbn.
    repeat split; eauto using lookup_delete_eq, lookup_insert_eq.
    + apply lookup_delete_eq.
    + apply lookup_insert_eq.
Qed.

Lemma forget_then_late_success_witness :
  let in_flight := advance (connectWithBaseUrl "http://192.168.1.50:4310") (initial ∅) in
  let forgot := exec (all_alive None) olvidar (snd in_flight) in
  let late := exec (all_alive None) (fst in_flight) (final forgot) in
  baseUrl (final forgot) = None /\
  baseUrl (final late) = Some "http://192.168.1.50:4310".
Proof.
  destruct (forget_then_late_success (all_alive None) (initial ∅)
              "http://192.168.1.50:4310" (alive "2024-01-01T00:00:00.000Z")
              (Js.Obj [("ok", Js.Bool true); ("time", Js.Str "2024-01-01T00:00:00.000Z")])
              eq_refl eq_refl eq_refl eq_refl eq_refl eq_refl)
    as (_ & _ & Hidle & _ & _ & Hconnected & _).
  split; [exact Hidle | exact Hconnected].
Defined.

(** C8. The callback of the discovery timeout touches nothing but the
    status line: it neither stops nor alters any [Zeroconf] instance.
    But it tests the [baseUrl] of the render that set the timer, not the
    current one: when start-up finds nothing saved, a service resolves
    and the client connects within the six seconds, the timeout still
    replaces the status "Conectado" by the hint, although an endpoint is
    connected. *)
Theorem timeout_hint_while_connected :
  (forall (w : World) (c : option string) (s : Sys),
      let r := exec w (on_timeout c) s in
      outcome r = Returned tt /\
      zeroconfs (final r) = zeroconfs s /\
      baseUrl (final r) = baseUrl s /\
      secureStore (final r) = secureStore s /\
      (trace r = [] \/
       trace r = [Did (setStatus "No se encontro por mDNS. Usa QR (fallback).")])) /\
  (exists m m',
      run JSON.parse
        [Mounted; Settles 0 Completes; Resolved 0 advertised;
         Settles 1 (Net (Fulfilled (alive "2024-01-01T00:00:00.000Z")));
         Settles 1 Completes; Settles 1 Completes] (boot ∅) = Some m /\
      baseUrl (sys m) = Some "http://192.168.1.50:4310" /\
      status (sys m) = "Conectado" /\
      timers (sys m) = [{| captured := None; delay := 6000; fired := false |}] /\
      step JSON.parse (TimedOut 0) m = Some m' /\
      baseUrl (sys m') = Some "http://192.168.1.50:4310" /\
      status (sys m') = "No se encontro por mDNS. Usa QR (fallback).") /\
  ~ hint_only_when_disconnected JSON.parse.
Proof.
  split; [|split].
  - intros w c s. unfold on_timeout.
    destruct (no_baseUrl c); cbn; repeat split; auto.
  - eexists _, _. vm_compute. repeat split; reflexivity.
  - intros H.
    specialize (H ∅
                  [Mounted; Settles 0 Completes; Resolved 0 advertised;
                   Settles 1 (Net (Fulfilled (alive "2024-01-01T00:00:00.000Z")));
                   Settles 1 Completes; Settles 1 Completes] 0%nat).
    destruct (run JSON.parse
                [Mounted; Settles 0 Completes; Resolved 0 advertised;
                 Settles 1 (Net (Fulfilled (alive "2024-01-01T00:00:00.000Z")));
                 Settles 1 Completes; Settles 1 Completes] (boot ∅))
      as [m|] eqn:Hm; [|vm_compute in Hm; discriminate Hm].
    specialize (H m).
    destruct (step JSON.parse (TimedOut 0) m) as [m'|] eqn:Hm';
      [|vm_compute in Hm; injection Hm as <-; vm_compute in Hm'; discriminate Hm'].
    specialize (H m' eq_refl eq_refl).
    vm_compute in Hm; injection Hm as <-.
    vm_compute in Hm'; injection Hm' as <-.
    match type of H with
    | ?P -> _ => assert (Hne : P) by (vm_compute; discriminate)
    end.
    specialize (H Hne). vm_compute in H. discriminate H.
Qed.

(** C9, as stated, fails: a rejected write of the store is raised by
    [connectWithBaseUrl] before the endpoint is set. *)
Lemma write_failure_loses_connection : ~ write_failure_keeps_connection.
Proof.
  intros H.
  specialize (H (all_alive (Some keychain_error)) (initial ∅)
                "http://192.168.1.50:4310" keychain_error eq_refl eq_refl).
  vm_compute in H. discriminate H.
Qed.

(** C9 (amended). For every endpoint whose probe succeeds, a failure of
    the write to the secure store is raised by [connectWithBaseUrl] and
    prevents the transition: the connected endpoint and the store are
    left as they were and the status stays at "Probando conexion...".
    The state becomes connected only when the write succeeds. *)
Theorem write_failure_prevents_connection
    (w : World) (s : Sys) (url : string) :
  probe w url = Returned true ->
  let r := exec w (connectWithBaseUrl url) s in
  match setItem_error w with
  | Some e =>
      outcome r = Raised e /\
      baseUrl (final r) = baseUrl s /\
      secureStore (final r) = secureStore s /\
      status (final r) = "Probando conexion..."
  | None =>
      outcome r = Returned tt /\
      baseUrl (final r) = Some url /\
      secureStore (final r) = <[STORE_KEY := url]> (secureStore s) /\
      status (final r) = "Conectado"
  end.
Proof.
  intros Hprobe.
  destruct (probe_true_inv _ _ Hprobe) as (res & data & Hnet & Hok & Hjson & Hmark).
  cbn zeta. unfold connectWithBaseUrl, tryHealth. cbn.
  rewrite Hnet. cbn. rewrite Hok. cbn. rewrite Hjson. cbn. rewrite Hmark. cbn.
  destruct (setItem_error w) as [e|]; cbn; repeat split; reflexivity.
Qed.

Lemma write_failure_prevents_connection_witness :
  let r := exec (all_alive (Some keychain_error))
             (connectWithBaseUrl "http://192.168.1.50:4310") (initial ∅) in
  outcome r = Raised keychain_error /\
  baseUrl (final r) = None /\
  secureStore (final r) = ∅ /\
  status (final r) = "Probando conexion...".
Proof.
  apply (write_failure_prevents_connection (all_alive (Some keychain_error)) (initial ∅)
           "http://192.168.1.50:4310").
  reflexivity.
Defined.

(** ** Properties of the server *)

Lemma trimStart_first (s : string) (c : ascii) :
  first_char (trimStart s) = Some c -> is_ws c = false.
Proof.
  induction s as [|a s IH]; cbn; [discriminate|].
  destruct (is_ws a) eqn:Ha; [exact IH|].
  cbn. intros [= <-]. exact Ha.
Qed.

Lemma trimEnd_first (s : string) (c : ascii) :
  first_char (trimEnd s) = Some c -> first_char s = Some c.
Proof.
  destruct s as [|a s]; cbn; [discriminate|].
  destruct (trimEnd s); [destruct (is_ws a)|]; cbn; congruence.
Qed.

Lemma trimEnd_last (s : string) (c : ascii) :
  last_char (trimEnd s) = Some c -> is_ws c = false.
Proof.
  induction s as [|a s IH]; cbn; [discriminate|].
  destruct (trimEnd s) as [|b t] eqn:Ht.
  - destruct (is_ws a) eqn:Ha; cbn; [discriminate|].
    intros [= <-]. exact Ha.
  - intros H. apply IH. exact H.
Qed.

Lemma trim_blank (s : string) : Server.all_ws s = true -> trim s = EmptyString.
Proof.
  unfold trim. induction s as [|a s IH]; cbn; [reflexivity|].
  destruct (is_ws a); cbn; [exact IH | discriminate].
Qed.

Lemma trimmed_title_ok (i : Z) (t now : string) :
  nonempty (trim t) = true ->
  Server.well_titled {| Server.id := i; Server.title := trim t; Server.updated_at := now |}.
Proof.
  intros Hne. unfold Server.well_titled. cbn. repeat split.
  - intros H. rewrite H in Hne. discriminate.
  - intros c Hc. apply trimEnd_first in Hc. eapply trimStart_first, Hc.
  - intros c Hc. eapply trimEnd_last, Hc.
Qed.

Lemma blank_title_of (req_body : Js.Value) :
  Server.blank_title req_body -> Server.title_of req_body = Some EmptyString.
Proof.
  unfold Server.blank_title, Server.title_of.
  destruct (Js.get req_body "title"); cbn; try tauto; try reflexivity.
  intros H. rewrite (trim_blank _ H). reflexivity.
Qed.

Lemma title_of_trimmed (req_body : Js.Value) (t : string) :
  Server.title_of req_body = Some t -> exists raw, t = trim raw.
Proof.
  unfold Server.title_of. destruct (Js.String_ _) as [raw|]; cbn; [|discriminate].
  intros [= <-]. eauto.
Qed.

Lemma handle_keeps_titles
    (Number_ : string -> Server.JsNumber) (now : string) (req : Server.Request)
    (db : Server.Db) :
  Forall Server.well_titled (Server.items db) ->
  Forall Server.well_titled (Server.items (snd (Server.handle Number_ now req db))).
Proof.
  intros Hdb. destruct req as [| |req_body|id_param req_body|id_param]; cbn; auto.
  - destruct (Server.title_of req_body) as [t|] eqn:Ht; cbn; [|exact Hdb].
    destruct (title_of_trimmed _ _ Ht) as [raw ->].
    destruct (nonempty (trim raw)) eqn:Hne; cbn; [|exact Hdb].
    apply Forall_app. split; [exact Hdb|].
    constructor; [|constructor]. apply trimmed_title_ok, Hne.
  - destruct (Server.title_of req_body) as [t|] eqn:Ht; cbn; [|exact Hdb].
    destruct (title_of_trimmed _ _ Ht) as [raw ->].
    destruct (Server.bad_id (Number_ id_param)); cbn; [exact Hdb|].
    destruct (nonempty (trim raw)) eqn:Hne; cbn; [|exact Hdb].
    destruct (List.find _ _) as [existing|]; cbn; [|exact Hdb].
    apply Forall_fmap. eapply Forall_impl; [exact Hdb|].
    intros r Hr. cbn. destruct (Server.has_id _ r); [|exact Hr].
    apply trimmed_title_ok, Hne.
  - destruct (Server.bad_id (Number_ id_param)); cbn; [exact Hdb|].
    destruct (forallb _ _); cbn; [exact Hdb|].
    rewrite Forall_forall in Hdb |- *. intros x Hx.
    apply list_elem_of_filter in Hx. apply Hdb, Hx.
Qed.

(** C10. Whatever requests are served, if every stored title was
    non-empty and free of leading and trailing white space before, it is
    so afterwards; in particular this holds of every table grown from the
    empty one.  [POST /items] and [PUT /items/:id] with a title that is
    missing, empty or white space only answer 400 and leave the database
    as it was, and a title is stored only in the trimmed form of the
    supplied one, and only when that form is not empty. *)
Theorem titles_stay_trimmed (Number_ : string -> Server.JsNumber) :
  (forall (reqs : list (string * Server.Request)) (db : Server.Db),
      Forall Server.well_titled (Server.items db) ->
      Forall Server.well_titled (Server.items (Server.serve Number_ reqs db))) /\
  (forall reqs : list (string * Server.Request),
      Forall Server.well_titled (Server.items (Server.serve Number_ reqs Server.empty))) /\
  (forall (now : string) (req_body : Js.Value) (db : Server.Db),
      Server.blank_title req_body ->
      Server.code (fst (Server.handle Number_ now (Server.POST_items req_body) db)) = 400 /\
      snd (Server.handle Number_ now (Server.POST_items req_body) db) = db) /\
  (forall (now id_param : string) (req_body : Js.Value) (db : Server.Db),
      Server.blank_title req_body ->
      Server.code (fst (Server.handle Number_ now (Server.PUT_items id_param req_body) db))
      = 400 /\
      snd (Server.handle Number_ now (Server.PUT_items id_param req_body) db) = db) /\
  (forall (now : string) (req_body : Js.Value) (db : Server.Db) (raw : string),
      Js.String_ (Js.nullish (Js.get req_body "title") (Js.Str EmptyString)) = Some raw ->
      nonempty (trim raw) = true ->
      Server.code (fst (Server.handle Number_ now (Server.POST_items req_body) db)) = 201 /\
      Server.items (snd (Server.handle Number_ now (Server.POST_items req_body) db)) =
        (Server.items db ++
           [{| Server.id := Server.next_id db;
               Server.title := trim raw;
               Server.updated_at := now |}])%list).
Proof.
  assert (Hserve : forall reqs db,
             Forall Server.well_titled (Server.items db) ->
             Forall Server.well_titled (Server.items (Server.serve Number_ reqs db))).
  { induction reqs as [|[now req] reqs IH]; intros db Hdb; cbn; [exact Hdb|].
    apply IH, handle_keeps_titles, Hdb. }
  split; [exact Hserve|]. split; [|split; [|split]].
  - intros reqs. apply Hserve. constructor.
  - intros now req_body db Hblank. cbn.
    rewrite (blank_title_of _ Hblank). cbn. split; reflexivity.
  - intros now id_param req_body db Hblank. cbn.
    rewrite (blank_title_of _ Hblank). cbn.
    destruct (Server.bad_id (Number_ id_param)); cbn; split; reflexivity.
  - intros now req_body db raw Hraw Hne. cbn. unfold Server.title_of.
    rewrite Hraw. cbn. rewrite Hne. cbn. split; reflexivity.
Qed.

Lemma titles_stay_trimmed_witness :
  let db :=
    Server.serve Server.Number_of_digits
      [("2024-01-01T10:00:00.000Z", Server.POST_items (Js.Obj [("title", Js.Str "  hola  ")]));
       ("2024-01-01T10:00:01.000Z", Server.POST_items (Js.Obj [("title", Js.Str "   ")]));
       ("2024-01-01T10:00:02.000Z", Server.PUT_items "1" (Js.Obj [("title", Js.Str " adios")]));
       ("2024-01-01T10:00:03.000Z", Server.PUT_items "1" (Js.Obj []))]
      Server.empty in
  Forall Server.well_titled (Server.items db) /\
  Server.items db =
    [{| Server.id := 1; Server.title := "adios";
        Server.updated_at := "2024-01-01T10:00:02.000Z" |}].
Proof.
  destruct (titles_stay_trimmed Server.Number_of_digits) as (H & _).
  split; [|vm_compute; reflexivity].
  apply (H _ Server.empty). constructor.
Defined.

(** ** Further properties of the client *)

Import Endpoints Api Crud ServerInfo.

(** *** Start-up *)

(** X1. When the secure store can be read and holds no endpoint (nothing
    under the key, or the empty string), the start-up effect makes no
    request to any host: it reads the store, creates one [Zeroconf]
    instance, scans for the service type with both listeners registered
    and sets the hint timer; nothing is connected and the store is
    untouched. *)
Theorem startup_with_nothing_saved (w : World) (store : gmap string string) :
  getItem_error w = None ->
  store !! STORE_KEY = None \/ store !! STORE_KEY = Some EmptyString ->
  let r := exec w startup (initial store) in
  outcome r = Returned tt /\
  trace r = [GotItem STORE_KEY (Fulfilled (store !! STORE_KEY)); Created 0;
             Did (setStatus "Buscando por mDNS (Zeroconf)...");
             Did (zeroconf_scan 0 SERVICE_TYPE "tcp");
             Did (zeroconf_on 0 "resolved"); Did (zeroconf_on 0 "error");
             Did (setTimeout None 6000)] /\
  baseUrl (final r) = None /\
  zeroconfs (final r) = [started_channel] /\
  secureStore (final r) = store.
Proof.
  intros Hget Hstore. cbn zeta. unfold startup, connectFromSaved. cbn.
  rewrite Hget. cbn. destruct Hstore as [-> | ->]; cbn; repeat split; reflexivity.
Qed.

Lemma startup_with_nothing_saved_witness :
  let r := exec unreachable startup (initial ∅) in
  outcome r = Returned tt /\
  baseUrl (final r) = None /\
  zeroconfs (final r) = [started_channel].
Proof.
  destruct (startup_with_nothing_saved unreachable ∅) as (Ho & _ & Hb & Hz & _).
  - reflexivity.
  - left. reflexivity.
  - repeat split; assumption.
Defined.

(** X2. When reading the secure store fails at start-up, the rejection
    is not caught: the start-up effect ends with that error right after
    the read, the state is that of the first render (status "Buscando
    server..."), and discovery is never started. *)
Theorem startup_when_the_store_cannot_be_read
    (w : World) (store : gmap string string) (e : Js.Error) :
  getItem_error w = Some e ->
  let r := exec w startup (initial store) in
  outcome r = Raised e /\
  final r = initial store /\
  trace r = [GotItem STORE_KEY (Rejected e)].
Proof.
  intros Hget. cbn zeta. unfold startup, connectFromSaved. cbn.
  rewrite Hget. cbn. repeat split; reflexivity.
Qed.

Lemma startup_when_the_store_cannot_be_read_witness :
  let w := {| net := fun _ => None; getItem_error := Some keychain_error;
              setItem_error := None; deleteItem_error := None |} in
  let r := exec w startup (initial ∅) in
  outcome r = Raised keychain_error /\
  final r = initial ∅ /\
  trace r = [GotItem STORE_KEY (Rejected keychain_error)].
Proof.
  apply (startup_when_the_store_cannot_be_read
           {| net := fun _ => None; getItem_error := Some keychain_error;
              setItem_error := None; deleteItem_error := None |} ∅ keychain_error).
  reflexivity.
Defined.

(** *** Connecting *)

(** X3. How [connectWithBaseUrl] fails.  A probe that answers no raises
    the error "No responde /health ..." with the status "No se pudo
    conectar."; a probe that raises lets its error through with the
    status left at "Probando conexion...".  Whenever the probe does not
    answer yes, the connected endpoint, the secure store, the error line
    and the [Zeroconf] instances are what they were, and the store is
    never written. *)
Theorem connect_failure_modes (w : World) (s : Sys) (url : string) :
  let r := exec w (connectWithBaseUrl url) s in
  (probe w url = Returned false ->
   outcome r = Raised (Js.new_Error "No responde /health (misma red? firewall?)") /\
   status (final r) = "No se pudo conectar.") /\
  (forall e, probe w url = Raised e ->
             outcome r = Raised e /\ status (final r) = "Probando conexion...") /\
  (probe w url <> Returned true ->
   baseUrl (final r) = baseUrl s /\
   secureStore (final r) = secureStore s /\
   err (final r) = err s /\
   zeroconfs (final r) = zeroconfs s /\
   forall k v x, SetItem k v x ∉ trace r).
Proof.
  cbn zeta. unfold probe, connectWithBaseUrl, tryHealth. cbn.
  destruct (net w (url ++ "/health")) as [[res|e]|]; cbn.
  - destruct (res_ok res); cbn.
    + destruct (res_json res) as [data|]; cbn.
      * destruct (Js.truthy (Js.get data "ok")); cbn.
        -- split; [discriminate|]. split; [discriminate|]. congruence.
        -- split; [auto|]. split; [discriminate|]. intros _. repeat split; auto.
           intros k v x Hin. repeat (apply elem_of_cons in Hin as [Hin|Hin]; [discriminate|]).
           inversion Hin.
      * split; [auto|]. split; [discriminate|]. intros _. repeat split; auto.
        intros k v x Hin. repeat (apply elem_of_cons in Hin as [Hin|Hin]; [discriminate|]).
        inversion Hin.
    + split; [auto|]. split; [discriminate|]. intros _. repeat split; auto.
      intros k v x Hin. repeat (apply elem_of_cons in Hin as [Hin|Hin]; [discriminate|]).
      inversion Hin.
  - split; [discriminate|]. split; [intros e' [= <-]; auto|]. intros _. repeat split; auto.
    intros k v x Hin. repeat (apply elem_of_cons in Hin as [Hin|Hin]; [discriminate|]).
    inversion Hin.
  - split; [discriminate|]. split; [discriminate|]. intros _. repeat split; auto.
    intros k v x Hin. repeat (apply elem_of_cons in Hin as [Hin|Hin]; [discriminate|]).
    inversion Hin.
Qed.






(** *** Retrying the discovery, forgetting the endpoint *)

Lemma alter_last {A} (f : A -> A) (l : list A) (z : A) :
  alter f (length l) (l ++ [z])%list = (l ++ [f z])%list.
Proof. induction l as [|x l IH]; cbn; [reflexivity|]. f_equal. exact IH. Qed.

Lemma discovery_run (w : World) (c : option string) (s : Sys) :
  exec w (startZeroconfDiscovery c) s =
  {| outcome := Returned (length (zeroconfs s));
     final :=
       {| baseUrl := baseUrl s; status := "Buscando por mDNS (Zeroconf)...";
          err := err s; qrOpen := qrOpen s; secureStore := secureStore s;
          alerts := alerts s;
          zeroconfs := (zeroconfs s ++ [started_channel])%list;
          timers := (timers s ++ [{| captured := c; delay := 6000; fired := false |}])%list |};
     trace := [Created (length (zeroconfs s));
               Did (setStatus "Buscando por mDNS (Zeroconf)...");
               Did (zeroconf_scan (length (zeroconfs s)) SERVICE_TYPE "tcp");
               Did (zeroconf_on (length (zeroconfs s)) "resolved");
               Did (zeroconf_on (length (zeroconfs s)) "error");
               Did (setTimeout c 6000)] |}.
Proof.
  unfold startZeroconfDiscovery. cbn -[alter]. unfold with_zeroconfs, with_timers.
  cbn -[alter]. rewrite !alter_last. reflexivity.
Qed.

Lemma retry_step parse (m : Machine) :
  step parse Pressed_Reintentar_mDNS m =
  Some {| sys :=
            {| baseUrl := baseUrl (sys m); status := "Buscando por mDNS (Zeroconf)...";
               err := err (sys m); qrOpen := qrOpen (sys m);
               secureStore := secureStore (sys m); alerts := alerts (sys m);
               zeroconfs := (zeroconfs (sys m) ++ [started_channel])%list;
               timers := (timers (sys m) ++
                          [{| captured := baseUrl (sys m); delay := 6000;
                              fired := false |}])%list |};
          tasks := (tasks m ++ [Ret tt])%list |}.
Proof.
  cbn [step]. unfold spawn, startZeroconfDiscovery. cbn -[alter].
  unfold with_zeroconfs, with_timers. cbn -[alter]. rewrite !alter_last. reflexivity.
Qed.

(** X5. Every press of "Reintentar mDNS" succeeds and adds one more
    scanning [Zeroconf] instance and one more hint timer; no earlier
    instance is stopped: whatever was listening keeps listening.  The
    connected endpoint and the secure store are not touched. *)
Theorem retry_never_stops_earlier_listeners parse (k : nat) (m : Machine) :
  exists m',
    run parse (replicate k Pressed_Reintentar_mDNS) m = Some m' /\
    zeroconfs (sys m') = (zeroconfs (sys m) ++ replicate k started_channel)%list /\
    length (timers (sys m')) = (length (timers (sys m)) + k)%nat /\
    (forall zc ev, listening (sys m) zc ev = true -> listening (sys m') zc ev = true) /\
    baseUrl (sys m') = baseUrl (sys m) /\
    secureStore (sys m') = secureStore (sys m).
Proof.
  revert m. induction k as [|k IH]; intros m.
  - exists m. cbn. rewrite app_nil_r. repeat split; auto; lia.
  - cbn [replicate run]. rewrite retry_step.
    destruct (IH {| sys :=
            {| baseUrl := baseUrl (sys m); status := "Buscando por mDNS (Zeroconf)...";
               err := err (sys m); qrOpen := qrOpen (sys m);
               secureStore := secureStore (sys m); alerts := alerts (sys m);
               zeroconfs := (zeroconfs (sys m) ++ [started_channel])%list;
               timers := (timers (sys m) ++
                          [{| captured := baseUrl (sys m); delay := 6000;
                              fired := false |}])%list |};
          tasks := (tasks m ++ [Ret tt])%list |}) as (m' & Hrun & Hz & Ht & Hl & Hb & Hs).
    exists m'. cbn in *. split; [exact Hrun|].
    split; [rewrite Hz, <- app_assoc; reflexivity|].
    split; [rewrite Ht, length_app; cbn; lia|].
    split; [|split; assumption].
    intros zc ev Hlisten. apply Hl. unfold listening in *. cbn.
    destruct (zeroconfs (sys m) !! zc) as [z|] eqn:E; [|discriminate].
    rewrite (lookup_app_l_Some _ _ _ _ E). exact Hlisten.
Qed.

(** X6. "Olvidar" never touches the [Zeroconf] instances or the timers.
    When the store rejects the deletion the handler raises that error
    and changes nothing: the endpoint stays connected.  Otherwise the
    endpoint is cleared and only the entry under the key is deleted. *)
Theorem forget_edge_cases (w : World) (s : Sys) :
  let r := exec w olvidar s in
  zeroconfs (final r) = zeroconfs s /\
  timers (final r) = timers s /\
  match deleteItem_error w with
  | Some e => outcome r = Raised e /\ final r = s
  | None =>
      outcome r = Returned tt /\
      baseUrl (final r) = None /\
      secureStore (final r) = delete STORE_KEY (secureStore s) /\
      (forall k, k <> STORE_KEY -> secureStore (final r) !! k = secureStore s !! k)
  end.
Proof.
  cbn zeta. unfold olvidar. cbn. destruct (deleteItem_error w) as [e|]; cbn.
  - repeat split; reflexivity.
  - repeat split; try reflexivity. intros k Hk. apply lookup_delete_ne. congruence.
Qed.

(** *** Every endpoint stored or connected passes the scanner's test *)

Lemma keeps_http_bind {A B} (p : Prog A) (f : A -> Prog B) :
  keeps_http p -> (forall a, keeps_http (f a)) -> keeps_http (p ≫= f).
Proof.
  intros Hp Hf. induction p as [a|e|a k IH|k IH|R r k IH]; cbn in *.
  - apply Hf.
  - exact I.
  - destruct Hp as [Ha Hk]. split; [exact Ha|]. apply IH, Hk.
  - intros zc. apply IH, Hp.
  - destruct Hp as [Hr Hk]. split; [exact Hr|]. intros x Hx. apply IH, Hk, Hx.
Qed.

Lemma keeps_http_try_catch {A} (p : Prog A) (h : Js.Error -> Prog A) :
  keeps_http p -> (forall e, keeps_http (h e)) -> keeps_http (try_catch p h).
Proof.
  intros Hp Hf. induction p as [a|e|a k IH|k IH|R r k IH]; cbn in *.
  - exact I.
  - apply Hf.
  - destruct Hp as [Ha Hk]. split; [exact Ha|]. apply IH, Hk.
  - intros zc. apply IH, Hp.
  - destruct Hp as [Hr Hk]. split; [exact Hr|]. intros x Hx. apply IH, Hk, Hx.
Qed.

Lemma connect_keeps_http (url : string) : http url -> keeps_http (connectWithBaseUrl url).
Proof.
  intros Hurl. unfold connectWithBaseUrl, tryHealth. cbn. split; [exact I|].
  split; [exact I|]. intros [res|e] _; cbn; [|exact I].
  destruct (res_ok res); cbn; [|auto].
  split; [exact I|]. intros [v|e] _; cbn; [|auto].
  destruct (Js.truthy (Js.get v "ok")); cbn; [|auto].
  split; [intros _; exact Hurl|]. intros [[]|e'] _; cbn; auto.
Qed.

Lemma connectFromSaved_keeps_http : keeps_http connectFromSaved.
Proof.
  unfold connectFromSaved, await. cbn [mbind Prog_bind bind keeps_http asks_http].
  split; [exact I|]. intros [[[|c u]|]|e] Hx; cbn [bind]; try exact I.
  cbn in Hx. apply keeps_http_try_catch; [|intros; exact I].
  apply keeps_http_bind; [apply connect_keeps_http; auto|intros []; exact I].
Qed.

Lemma startup_keeps_http : keeps_http startup.
Proof.
  unfold startup. apply keeps_http_bind; [apply connectFromSaved_keeps_http|].
  intros [|]; [exact I|]. cbn. intros zc. repeat split.
Qed.

Lemma on_resolved_keeps_http zc service : keeps_http (on_resolved zc service).
Proof.
  unfold on_resolved.
  apply keeps_http_try_catch; [|intros e; cbn; auto].
  destruct (find_address service) as [e|ip]; [exact I|].
  cbv zeta. destruct (negb (Js.truthy ip)); [exact I|].
  destruct (Js.String_ ip) as [x|]; [|exact I].
  destruct (Js.String_ _) as [port|]; [|exact I].
  apply keeps_http_bind; [apply connect_keeps_http; reflexivity|intros []; cbn; auto].
Qed.

Lemma onQrScanned_keeps_http parse data : keeps_http (onQrScanned parse data).
Proof.
  unfold onQrScanned.
  apply keeps_http_try_catch; [|intros e; cbn; auto].
  destruct (parse data) as [parsed|]; [|exact I].
  destruct (scanned_url parsed) as [url|]; [|exact I].
  destruct (startsWith url "http") eqn:Hurl; cbn [negb]; [|exact I].
  apply keeps_http_bind; [cbn; auto|intros []; apply connect_keeps_http, Hurl].
Qed.

Lemma perform_http (a : Action) (s : Sys) :
  match a with setBaseUrl (Some u) => http u | _ => True end ->
  http_state s -> http_state (perform a s).
Proof.
  intros Ha [Hs Hb]. destruct a as [v|u|e|b|t m|zc t p|zc ev|zc|c ms];
    split; cbn; auto.
  intros u' ->. exact Ha.
Qed.

Lemma advance_http {A} (p : Prog A) (s : Sys) :
  keeps_http p -> http_state s ->
  http_state (snd (advance p s)) /\ keeps_http (fst (advance p s)).
Proof.
  revert s. induction p as [a|e|a k IH|k IH|R r k IH]; intros s Hp Hs; cbn in *.
  - split; [exact Hs|exact I].
  - split; [exact Hs|exact I].
  - destruct Hp as [Ha Hk]. apply IH; [exact Hk|]. apply perform_http; assumption.
  - apply (IH (length (zeroconfs s)) (snd (create_zeroconf s)) (Hp _)).
    destruct Hs as [H1 H2]. split; cbn; auto.
  - split; [exact Hs|exact Hp].
Qed.

Lemma settle_http {R} (a : Answer) (s s' : Sys) (r : Request R) (x : Settled R) :
  asks_http r -> http_state s ->
  settle a s r = Some (x, s') ->
  http_state s' /\ answers_http r x.
Proof.
  intros Hr [Hs Hb].
  destruct r as [input init|res|key|key v|key]; cbn in *;
    destruct a as [n| |e]; intros [= <- <-] || intros [=]; cbn.
  - split; [split; assumption|exact I].
  - split; [split; assumption|exact I].
  - split; [split; assumption|].
    destruct (secureStore s !! key) as [v|] eqn:E; [|exact I].
    intros ->. apply Hs, E.
  - split; [split; assumption|exact I].
  - split; [|exact I]. split; cbn; [|exact Hb].
    intros v'. destruct (decide (key = STORE_KEY)) as [->|Hne].
    + rewrite lookup_insert_eq. intros [= <-]. auto.
    + rewrite lookup_insert_ne by exact Hne. apply Hs.
  - split; [split; assumption|exact I].
  - split; [|exact I]. split; cbn; [|exact Hb].
    intros v'. destruct (decide (key = STORE_KEY)) as [->|Hne].
    + rewrite lookup_delete_eq. discriminate.
    + rewrite lookup_delete_ne by exact Hne. apply Hs.
  - split; [split; assumption|exact I].
Qed.

Lemma spawn_http (p : Prog unit) (m : Machine) :
  keeps_http p -> http_machine m -> http_machine (spawn p m).
Proof.
  intros Hp [Hs Ht]. unfold spawn.
  destruct (advance_http p (sys m) Hp Hs) as [Hs' Hp'].
  destruct (advance p (sys m)) as [p' s']. cbn in *.
  split; [exact Hs'|]. apply Forall_app. split; [exact Ht|]. constructor; [exact Hp'|constructor].
Qed.

Lemma step_http parse (ev : Event) (m m' : Machine) :
  http_machine m -> step parse ev m = Some m' -> http_machine m'.
Proof.
  intros Hm Hstep. destruct ev; cbn [step] in Hstep.
  - injection Hstep as <-. apply spawn_http; [apply startup_keeps_http|exact Hm].
  - injection Hstep as <-. apply spawn_http; [|exact Hm].
    cbn. split; [exact I|]. intros [[]|e] _; cbn; auto.
  - injection Hstep as <-. apply spawn_http; [|exact Hm]. cbn. intros zc. repeat split.
  - injection Hstep as <-. apply spawn_http; [|exact Hm]. cbn. auto.
  - destruct (qrOpen (sys m)); [|discriminate].
    injection Hstep as <-. apply spawn_http; [apply onQrScanned_keeps_http|exact Hm].
  - destruct (listening (sys m) zc "resolved"); [|discriminate].
    injection Hstep as <-. apply spawn_http; [apply on_resolved_keeps_http|exact Hm].
  - destruct (listening (sys m) zc "error"); [|discriminate].
    injection Hstep as <-. apply spawn_http; [cbn; auto|exact Hm].
  - destruct (timers (sys m) !! timer) as [t|]; [|discriminate].
    destruct (fired t); [discriminate|].
    injection Hstep as <-. apply spawn_http.
    + unfold on_timeout. destruct (no_baseUrl _); cbn; auto.
    + destruct Hm as [[H1 H2] H3]. split; [split|]; cbn; auto.
  - destruct (tasks m !! task) as [p|] eqn:Hp; [|discriminate].
    destruct Hm as [Hs Ht].
    assert (Hsafe : keeps_http p).
    { rewrite Forall_forall in Ht. apply Ht. eapply list_elem_of_lookup_2, Hp. }
    destruct p as [u|e|a0 k|k|R r k]; cbn [resume] in Hstep; try discriminate.
    destruct (settle a (sys m) r) as [[x s1]|] eqn:Hsettle; [|discriminate].
    destruct Hsafe as [Hr Hk].
    destruct (settle_http a _ _ r x Hr Hs Hsettle) as [Hs1 Hx].
    destruct (advance_http (k x) s1 (Hk x Hx) Hs1) as [Hs' Hp'].
    destruct (advance (k x) s1) as [p' s']. cbn in *.
    injection Hstep as <-. split; cbn; [exact Hs'|].
    apply Forall_insert; assumption.
Qed.

(** X7. If the endpoint found in the secure store when the component
    mounts (if any) starts with "http", then after any sequence of
    events (start-up, button presses, scans, resolved services, errors,
    timeouts, promises settling in any order) the endpoint in the
    store and the connected endpoint, if any, both start with "http". *)
Theorem endpoints_always_start_with_http parse (store : gmap string string)
    (evs : list Event) (m : Machine) :
  (forall v, store !! STORE_KEY = Some v -> startsWith v "http" = true) ->
  run parse evs (boot store) = Some m ->
  (forall v, secureStore (sys m) !! STORE_KEY = Some v -> startsWith v "http" = true) /\
  (forall u, baseUrl (sys m) = Some u -> startsWith u "http" = true).
Proof.
  intros Hstore Hrun.
  assert (Hinv : forall evs m0 m1, http_machine m0 -> run parse evs m0 = Some m1 ->
                                   http_machine m1).
  { clear. induction evs as [|ev evs IH]; intros m0 m1 H0; cbn.
    - intros [= <-]. exact H0.
    - destruct (step parse ev m0) as [m0'|] eqn:Hs; [|discriminate].
      apply IH. eapply step_http; eauto. }
  destruct (Hinv evs (boot store) m) as [Hs _]; [|exact Hrun|exact Hs].
  split; [split|constructor]; cbn; [exact Hstore|discriminate].
Qed.

Lemma endpoints_always_start_with_http_witness :
  match run JSON.parse
          [Mounted; Settles 0 Completes;
           Settles 0 (Net (Fulfilled (alive "2024-01-01T00:00:00.000Z")));
           Settles 0 Completes; Settles 0 Completes]
          (boot {[ STORE_KEY := "http://192.168.1.50:4310" ]}) with
  | Some m =>
      (forall v, secureStore (sys m) !! STORE_KEY = Some v -> startsWith v "http" = true) /\
      (forall u, baseUrl (sys m) = Some u -> startsWith u "http" = true)
  | None => False
  end.
Proof.
  assert (Hstore : forall v,
             ({[ STORE_KEY := "http://192.168.1.50:4310" ]} : gmap string string)
               !! STORE_KEY = Some v ->
             startsWith v "http" = true).
  { intros v Hv. vm_compute in Hv. injection Hv as <-. reflexivity. }
  destruct (run JSON.parse _ _) as [m|] eqn:Hrun; [|vm_compute in Hrun; discriminate Hrun].
  exact (endpoints_always_start_with_http JSON.parse _ _ m Hstore Hrun).
Defined.

(** *** The request helper *)

Lemma api_run (w : World) (s : Sys) (baseUrl path : string)
    (options : list (string * Js.Value)) :
  final (exec w (api baseUrl path options) s) = s /\
  outcome (exec w (api baseUrl path options) s) =
    match net w (baseUrl ++ path) with
    | None =>
        if Js.truthy (Js.get (Js.Obj (("headers", json_headers) :: options)) "signal")
        then Raised AbortError else Pending
    | Some (Rejected e) => Raised e
    | Some (Fulfilled res) => api_outcome res
    end.
Proof.
  unfold api, api_outcome. cbn -[String.append Js.string_of_Z Js.String_ Js.or_ Js.get].
  destruct (net w (baseUrl ++ path)) as [[res|e]|];
    cbn -[String.append Js.string_of_Z Js.String_ Js.or_ Js.get];
    [|auto|destruct (Js.truthy _); cbn; auto].
  destruct (res_json res) as [data|];
    cbn -[String.append Js.string_of_Z Js.String_ Js.or_ Js.get];
    (destruct (res_ok res); cbn -[String.append Js.string_of_Z Js.String_ Js.or_ Js.get];
     [auto|]);
    (destruct (Js.String_ _); cbn; auto).
Qed.

(** X8. [api] never changes the state of the component.  A rejected
    fetch is raised as it is.  A response with a success status returns
    its JSON body, or the empty object when the body is not JSON.  Any
    other response raises and never returns: with the [error] text of
    the body as message when there is one, with "HTTP" and the status
    code otherwise. *)
Theorem api_reports_the_answer
    (w : World) (s : Sys) (baseUrl path : string) (options : list (string * Js.Value)) :
  let r := exec w (api baseUrl path options) s in
  final r = s /\
  (forall e, net w (baseUrl ++ path) = Some (Rejected e) -> outcome r = Raised e) /\
  (forall res, net w (baseUrl ++ path) = Some (Fulfilled res) ->
     (res_ok res = true ->
      outcome r = Returned (default (Js.Obj []) (res_json res))) /\
     (res_ok res = false ->
      (forall v, outcome r <> Returned v) /\
      (forall msg, Js.get (default (Js.Obj []) (res_json res)) "error" = Js.Str msg ->
                   msg <> EmptyString ->
                   outcome r = Raised (Js.new_Error msg)) /\
      (Js.truthy (Js.get (default (Js.Obj []) (res_json res)) "error") = false ->
       outcome r = Raised (Js.new_Error ("HTTP " ++ Js.string_of_Z (res_status res)))))).
Proof.
  cbn zeta. destruct (api_run w s baseUrl path options) as [Hf Ho].
  split; [exact Hf|]. rewrite Ho. split.
  - intros e ->. reflexivity.
  - intros res ->. unfold api_outcome. split.
    + intros ->. reflexivity.
    + intros ->. split; [|split].
      * intros v. destruct (Js.String_ _); discriminate.
      * intros msg Hmsg Hne. unfold Js.or_. rewrite Hmsg.
        destruct msg; [congruence|]. reflexivity.
      * intros Hfalsy. unfold Js.or_. rewrite Hfalsy. reflexivity.
Qed.

Ltac by_code :=
  cbn; repeat split; try discriminate; auto 6;
  try (let H := fresh in intros [H|H]; discriminate H).

(** X9. The answers of the server, seen through [api].  Whatever the
    request and the table, the server answers with one of 200, 201, 400,
    404, 500.  On 200 and 201 the caller gets the body the server sent;
    on 400 it gets an error "title requerido" or "id invalido"; on 404
    an error "no encontrado"; on 500 an error "HTTP 500". *)
Theorem server_errors_reach_the_caller
    (Number_ : string -> Server.JsNumber) (now : string) (req : Server.Request)
    (db : Server.Db) (w : World) (s : Sys) (baseUrl path : string)
    (options : list (string * Js.Value)) :
  let answer := fst (Server.handle Number_ now req db) in
  net w (baseUrl ++ path) = Some (Fulfilled (over_the_wire answer)) ->
  let r := exec w (api baseUrl path options) s in
  (Server.code answer = 200 \/ Server.code answer = 201 ->
   outcome r = Returned (Server.body answer)) /\
  (Server.code answer = 400 ->
   outcome r = Raised (Js.new_Error "title requerido") \/
   outcome r = Raised (Js.new_Error "id invalido")) /\
  (Server.code answer = 404 -> outcome r = Raised (Js.new_Error "no encontrado")) /\
  (Server.code answer = 500 -> outcome r = Raised (Js.new_Error "HTTP 500")) /\
  (Server.code answer = 200 \/ Server.code answer = 201 \/ Server.code answer = 400 \/
   Server.code answer = 404 \/ Server.code answer = 500).
Proof.
  cbn zeta. intros Hnet.
  destruct (api_run w s baseUrl path options) as [_ Ho]. rewrite Ho, Hnet. clear.
  destruct req as [| |req_body|id_param req_body|id_param];
    cbn [Server.handle fst]; cbv zeta.
  - by_code.
  - cbn -[Server.by_id_desc fmap]. repeat split; try discriminate; auto.
  - destruct (Server.title_of req_body) as [t|]; [|by_code].
    destruct (nonempty t); by_code.
  - destruct (Server.title_of req_body) as [t|]; [|by_code].
    destruct (Server.bad_id _); [by_code|].
    destruct (nonempty t); cbn [negb]; [|by_code].
    destruct (List.find _ _); by_code.
  - destruct (Server.bad_id _); [by_code|].
    destruct (forallb _ _); by_code.
Qed.

Lemma server_errors_reach_the_caller_witness :
  let answer := fst (Server.handle Server.Number_of_digits "2024-01-01T10:00:00.000Z"
                       (Server.DELETE_items "7") Server.empty) in
  let w := {| net := fun _ => Some (Fulfilled (over_the_wire answer));
              getItem_error := None; setItem_error := None; deleteItem_error := None |} in
  let r := exec w (api "http://192.168.1.50:4310" "/items/7" [("method", Js.Str "DELETE")])
             (initial ∅) in
  outcome r = Raised (Js.new_Error "no encontrado").
Proof.
  destruct (server_errors_reach_the_caller Server.Number_of_digits
              "2024-01-01T10:00:00.000Z" (Server.DELETE_items "7") Server.empty
              {| net := fun _ =>
                          Some (Fulfilled
                                  (over_the_wire
                                     (fst (Server.handle Server.Number_of_digits
                                             "2024-01-01T10:00:00.000Z"
                                             (Server.DELETE_items "7") Server.empty))));
                 getItem_error := None; setItem_error := None; deleteItem_error := None |}
              (initial ∅) "http://192.168.1.50:4310" "/items/7"
              [("method", Js.Str "DELETE")] eq_refl)
    as (_ & _ & H & _).
  exact (H eq_refl).
Defined.

(** *** The list of the phone *)

Lemma load_run (w : World) (s : Sys) (url : string) :
  url <> EmptyString ->
  let r := exec w (load (Some url)) s in
  final r = perform (setErr match outcome (exec w (api url "/items" []) s) with
                            | Raised e => Js.describe e
                            | _ => EmptyString
                            end) s /\
  outcome r = match outcome (exec w (api url "/items" []) s) with
              | Returned rows => Returned (Some rows)
              | Raised e => Returned None
              | Pending => Pending
              end.
Proof.
  intros Hurl. destruct url as [|c u]; [congruence|]. cbn zeta.
  unfold load, api.
  cbn -[String.append Js.string_of_Z Js.String_ Js.or_ Js.get].
  destruct (net w _) as [[res|e]|];
    cbn -[String.append Js.string_of_Z Js.String_ Js.or_ Js.get]; auto.
  destruct (res_json res) as [data|];
    cbn -[String.append Js.string_of_Z Js.String_ Js.or_ Js.get];
    (destruct (res_ok res); cbn -[String.append Js.string_of_Z Js.String_ Js.or_ Js.get];
     [auto|]);
    (destruct (Js.String_ _); cbn; auto).
Qed.

(** X10. [load] never raises and never touches the connected endpoint,
    the secure store or the status line.  Without a connected endpoint
    it does nothing at all.  Otherwise it clears the error line and asks
    for ["/items"]: what [api] returns is given to [setItems]; what
    [api] raises is shown on the error line and the list is left as it
    was. *)
Theorem load_reports_instead_of_raising (w : World) (s : Sys) (connected : option string) :
  let r := exec w (load connected) s in
  (forall e, outcome r <> Raised e) /\
  baseUrl (final r) = baseUrl s /\
  secureStore (final r) = secureStore s /\
  status (final r) = status s /\
  (no_baseUrl connected = true -> outcome r = Returned None /\ final r = s /\ trace r = []) /\
  (forall url e,
      connected = Some url -> url <> EmptyString ->
      outcome (exec w (api url "/items" []) s) = Raised e ->
      outcome r = Returned None /\ err (final r) = Js.describe e) /\
  (forall url rows,
      connected = Some url -> url <> EmptyString ->
      outcome (exec w (api url "/items" []) s) = Returned rows ->
      outcome r = Returned (Some rows) /\ err (final r) = EmptyString).
Proof.
  cbn zeta. destruct connected as [[|c u]|].
  - cbn. repeat split; try discriminate; auto; intros; congruence.
  - destruct (load_run w s (String c u) ltac:(discriminate)) as [Hf Ho].
    cbn zeta in Hf, Ho. rewrite Hf, Ho.
    split; [intros e; destruct (outcome (exec w (api _ _ _) s)); discriminate|].
    split; [reflexivity|]. split; [reflexivity|]. split; [reflexivity|].
    split; [discriminate|].
    split; intros url x [= <-] _ ->; split; reflexivity.
  - cbn. repeat split; try discriminate; auto.
Qed.

(** *** The Expo screen *)

(** X11. Start-up of the Expo screen, when the secure store can be
    read.  [connectFromSaved] never raises and never uses [Zeroconf] or
    a timer.  With nothing saved it changes nothing.  With a saved
    endpoint it either connects to it (probe and write succeed), or it
    shows "Guardada falló (usa QR)" with the reason on the error line
    and leaves the connected endpoint as it was; a failure of the probe
    or of the write leaves the store as it was. *)
Theorem lan_screen_startup (w : World) (s : Sys) :
  getItem_error w = None ->
  let r := exec w LanCrudScreen.connectFromSaved s in
  (forall e, outcome r <> Raised e) /\
  zeroconfs (final r) = zeroconfs s /\
  timers (final r) = timers s /\
  match secureStore s !! LanCrudScreen.STORE_KEY with
  | None | Some EmptyString => outcome r = Returned tt /\ final r = s
  | Some E =>
      (probe w E = Returned true -> setItem_error w = None ->
       outcome r = Returned tt /\ baseUrl (final r) = Some E /\
       status (final r) = "Conectado ✅" /\ err (final r) = err s) /\
      (probe w E = Returned false ->
       outcome r = Returned tt /\ baseUrl (final r) = baseUrl s /\
       status (final r) = "Guardada falló (usa QR)" /\
       err (final r) = "No responde /health (¿misma red? ¿firewall?)") /\
      (forall e, probe w E = Raised e \/
                 (probe w E = Returned true /\ setItem_error w = Some e) ->
       outcome r = Returned tt /\ baseUrl (final r) = baseUrl s /\
       status (final r) = "Guardada falló (usa QR)" /\
       err (final r) = Js.describe e /\
       secureStore (final r) = secureStore s)
  end.
Proof.
  intros Hget. cbn zeta.
  unfold LanCrudScreen.connectFromSaved, LanCrudScreen.connectWithBaseUrl,
    LanCrudScreen.tryHealth, probe, tryHealth.
  cbn. rewrite Hget. cbn.
  destruct (secureStore s !! LanCrudScreen.STORE_KEY) as [[|c E]|]; cbn;
    [repeat split; auto; discriminate| |repeat split; auto; discriminate].
  destruct (net w (String c E ++ "/health")) as [[res|e]|]; cbn.
  - destruct (res_ok res); cbn.
    + destruct (res_json res) as [data|]; cbn.
      * destruct (Js.truthy (Js.get data "ok")); cbn.
        -- destruct (setItem_error w) as [e|]; cbn.
           ++ repeat split; auto; try discriminate.
              all: intuition congruence.
           ++ repeat split; auto; try discriminate.
              all: intuition congruence.
        -- repeat split; auto; try discriminate.
           all: intuition congruence.
      * repeat split; auto; try discriminate.
        all: intuition congruence.
    + repeat split; auto; try discriminate.
      all: intuition congruence.
  - repeat split; auto; try discriminate.
    all: intuition congruence.
  - repeat split; auto; try discriminate.
    all: intuition congruence.
Qed.

Lemma lan_screen_startup_witness :
  let s := initial {[ LanCrudScreen.STORE_KEY := "http://192.168.1.50:4310" ]} in
  (let r := exec (all_alive None) LanCrudScreen.connectFromSaved s in
   baseUrl (final r) = Some "http://192.168.1.50:4310") /\
  (let r := exec unreachable LanCrudScreen.connectFromSaved s in
   outcome r = Returned tt /\ baseUrl (final r) = None /\
   err (final r) = "Network request failed").
Proof.
  split.
  - destruct (lan_screen_startup (all_alive None)
                (initial {[ LanCrudScreen.STORE_KEY := "http://192.168.1.50:4310" ]})
                eq_refl) as (_ & _ & _ & H).
    cbn in H. destruct H as (H & _).
    destruct (H eq_refl eq_refl) as (_ & Hb & _). exact Hb.
  - destruct (lan_screen_startup unreachable
                (initial {[ LanCrudScreen.STORE_KEY := "http://192.168.1.50:4310" ]})
                eq_refl) as (_ & _ & _ & H).
    cbn in H. destruct H as (_ & _ & H).
    destruct (H (Js.mkError "TypeError" "Network request failed") (or_introl eq_refl))
      as (Ho & Hb & _ & He & _).
    repeat split; assumption.
Defined.

(** ** Further properties of the server *)

(** *** Strings that [trim] leaves alone *)

Lemma trimStart_fixed (t : string) :
  (forall c, first_char t = Some c -> is_ws c = false) -> trimStart t = t.
Proof.
  destruct t as [|a t]; cbn; [reflexivity|].
  intros H. rewrite (H a eq_refl). reflexivity.
Qed.

Lemma trimEnd_fixed (t : string) :
  (forall c, last_char t = Some c -> is_ws c = false) -> trimEnd t = t.
Proof.
  induction t as [|a t IH]; cbn; [reflexivity|].
  destruct t as [|b t'].
  - cbn. intros H. rewrite (H a eq_refl). reflexivity.
  - intros H. rewrite (IH H). reflexivity.
Qed.

Lemma trim_fixed_string (t : string) :
  (forall c, first_char t = Some c -> is_ws c = false) ->
  (forall c, last_char t = Some c -> is_ws c = false) ->
  trim t = t.
Proof.
  intros Hfirst Hlast. unfold trim.
  rewrite (trimStart_fixed _ Hfirst). apply trimEnd_fixed, Hlast.
Qed.

Lemma trim_idempotent (s : string) : trim (trim s) = trim s.
Proof.
  apply trim_fixed_string.
  - intros c Hc. apply trimEnd_first in Hc. eapply trimStart_first, Hc.
  - intros c Hc. eapply trimEnd_last, Hc.
Qed.

Lemma trimEnd_cons (c : ascii) (r : string) :
  is_ws c = false -> trimEnd (String c r) = String c (trimEnd r).
Proof. intros Hc. cbn. rewrite Hc. destruct (trimEnd r); reflexivity. Qed.

Lemma trim_http (x : string) : startsWith (trim ("http://" ++ x)) "http" = true.
Proof.
  unfold trim.
  change ("http://" ++ x) with (String "h" (String "t" (String "t" (String "p" ("://" ++ x))))).
  cbn [trimStart]. change (is_ws "h") with false. cbv iota.
  rewrite !trimEnd_cons by reflexivity. cbn. destruct (trimEnd _); reflexivity.
Qed.

Lemma last_char_app (a b : string) (c : ascii) :
  last_char b = Some c -> last_char (a ++ b) = Some c.
Proof.
  intros Hb. induction a as [|x a IH]; [exact Hb|].
  change (String x a ++ b) with (String x (a ++ b)).
  destruct (a ++ b) as [|y t]; [discriminate IH|exact IH].
Qed.

(** *** The table *)

Section Items.
Import Server ServerFacts.

Lemma has_id_Z (i : Z) (r : Row) : has_id (Finite (inject_Z i)) r = (i =? id r).
Proof.
  unfold has_id, Qeq_bool, inject_Z. cbn. rewrite !Z.mul_1_r. reflexivity.
Qed.

Lemma bad_id_Z (i : Z) : bad_id (Finite (inject_Z i)) = (i <=? 0).
Proof.
  unfold bad_id, Qle_bool, inject_Z. cbn. rewrite Z.mul_1_r. reflexivity.
Qed.

Lemma max_id_ge (l : list Row) (r : Row) : r ∈ l -> id r <= max_id l.
Proof.
  induction l as [|x l IH]; intros Hr; [inversion Hr|].
  unfold max_id in *. cbn [foldr].
  apply elem_of_cons in Hr as [->|Hr]; [lia|]. specialize (IH Hr). lia.
Qed.

Lemma max_id_nonneg (l : list Row) : 0 <= max_id l.
Proof. induction l as [|x l IH]; unfold max_id in *; cbn [foldr]; lia. Qed.

Lemma next_id_fresh (db : Db) (r : Row) : r ∈ items db -> id r < next_id db.
Proof. intros Hr. apply max_id_ge in Hr. unfold next_id. fold (max_id (items db)). lia. Qed.

Lemma handle_ids (Number_ : string -> JsNumber) (now : string) (req : Request) (db : Db) :
  ids_ok db ->
  let db' := snd (handle Number_ now req db) in
  ids_ok db' /\
  sequence db <= sequence db' /\
  (forall r, r ∈ items db' -> id r <= sequence db -> exists r0, r0 ∈ items db /\ id r0 = id r).
Proof.
  intros [Hnd Hrange]. cbn zeta.
  assert (Hsame : ids_ok db /\ sequence db <= sequence db /\
                  (forall r, r ∈ items db -> id r <= sequence db ->
                             exists r0, r0 ∈ items db /\ id r0 = id r)).
  { split; [split; assumption|]. split; [lia|]. eauto. }
  unfold ids_ok.
  destruct req as [| |req_body|id_param req_body|id_param];
    cbn -[fmap filter next_id]; try exact Hsame.
  - destruct (title_of req_body) as [t|]; cbn -[fmap filter next_id]; [|exact Hsame].
    destruct (nonempty t); cbn -[fmap filter next_id]; [|exact Hsame].
    assert (Hnext : sequence db < next_id db) by (unfold next_id; lia).
    split; [split|split].
    + rewrite fmap_app. cbn. apply NoDup_app. split; [exact Hnd|].
      split; [|apply NoDup_singleton].
      intros x Hx Hx'. apply list_elem_of_singleton in Hx'. subst x.
      apply list_elem_of_fmap in Hx as (r & Hr & Hin).
      rewrite Forall_forall in Hrange. specialize (Hrange r Hin). lia.
    + apply Forall_app. split.
      * eapply Forall_impl; [exact Hrange|]. cbn. intros r Hr. lia.
      * constructor; [|constructor]. cbn.
        pose proof (max_id_nonneg (items db)). unfold next_id.
        fold (max_id (items db)). lia.
    + lia.
    + intros r Hr Hle. apply elem_of_app in Hr as [Hr|Hr]; [eauto|].
      apply list_elem_of_singleton in Hr. subst r. cbn in Hle. lia.
  - destruct (title_of req_body) as [t|]; cbn -[fmap filter next_id]; [|exact Hsame].
    destruct (bad_id (Number_ id_param)); cbn -[fmap filter next_id]; [exact Hsame|].
    destruct (nonempty t); cbn -[fmap filter next_id]; [|exact Hsame].
    destruct (List.find _ _) as [existing|]; cbn -[fmap filter next_id]; [|exact Hsame].
    set (f := fun r : Row => if has_id (Number_ id_param) r
                             then {| id := id r; title := t; updated_at := now |} else r).
    assert (Hid : forall r, id (f r) = id r).
    { intros r. unfold f. destruct (has_id _ r); reflexivity. }
    split; [split|split].
    + rewrite <- list_fmap_compose.
      erewrite list_fmap_ext; [exact Hnd|]. intros i r _. apply Hid.
    + apply Forall_fmap. eapply Forall_impl; [exact Hrange|].
      intros r Hr. cbn. rewrite Hid. exact Hr.
    + lia.
    + intros r Hr _. apply list_elem_of_fmap in Hr as (r0 & -> & Hr0).
      exists r0. split; [exact Hr0|]. symmetry. apply Hid.
  - destruct (bad_id (Number_ id_param)); cbn -[fmap filter next_id]; [exact Hsame|].
    destruct (forallb _ _); cbn -[fmap filter next_id]; [exact Hsame|].
    split; [split|split].
    + apply NoDup_fmap_2_strong.
      * intros x y Hx Hy Hxy.
        apply list_elem_of_filter in Hx as [_ Hx], Hy as [_ Hy].
        apply list_elem_of_lookup in Hx as [i Hi], Hy as [j Hj].
        assert (Hi' : (id <$> items db) !! i = Some (id x)) by (rewrite list_lookup_fmap, Hi; reflexivity).
        assert (Hj' : (id <$> items db) !! j = Some (id y)) by (rewrite list_lookup_fmap, Hj; reflexivity).
        rewrite Hxy in Hi'.
        assert (i = j) by (eapply NoDup_lookup; eauto). subst j. congruence.
      * apply NoDup_filter. eapply NoDup_fmap_1, Hnd.
    + rewrite Forall_forall in Hrange |- *. intros r Hr.
      apply list_elem_of_filter in Hr as [_ Hr]. auto.
    + lia.
    + intros r Hr _. apply list_elem_of_filter in Hr as [_ Hr]. eauto.
Qed.

Lemma serve_ids (Number_ : string -> JsNumber) (reqs : list (string * Request)) (db : Db) :
  ids_ok db ->
  ids_ok (serve Number_ reqs db) /\
  sequence db <= sequence (serve Number_ reqs db) /\
  (forall r, r ∈ items (serve Number_ reqs db) -> id r <= sequence db ->
             exists r0, r0 ∈ items db /\ id r0 = id r).
Proof.
  revert db. induction reqs as [|[now req] reqs IH]; intros db Hdb; cbn [serve].
  - split; [exact Hdb|]. split; [lia|]. eauto.
  - destruct (handle_ids Number_ now req db Hdb) as (H1 & H2 & H3).
    destruct (IH _ H1) as (I1 & I2 & I3).
    split; [exact I1|]. split; [lia|].
    intros r Hr Hle. destruct (I3 r Hr ltac:(lia)) as (r1 & Hr1 & Hid).
    destruct (H3 r1 Hr1 ltac:(lia)) as (r0 & Hr0 & Hid0).
    exists r0. split; [exact Hr0|]. congruence.
Qed.

Lemma place_perm (r : Row) (l : list Row) : place r l ≡ₚ r :: l.
Proof.
  induction l as [|x l IH]; cbn; [reflexivity|].
  destruct (id x <=? id r); [reflexivity|].
  rewrite IH. apply Permutation_swap.
Qed.

Lemma by_id_desc_perm (l : list Row) : by_id_desc l ≡ₚ l.
Proof.
  unfold by_id_desc. induction l as [|x l IH]; cbn; [reflexivity|].
  rewrite place_perm, IH. reflexivity.
Qed.

Lemma place_sorted (r : Row) (l : list Row) :
  StronglySorted (fun a b => id b <= id a) l ->
  StronglySorted (fun a b => id b <= id a) (place r l).
Proof.
  induction 1 as [|x l Hl IH Hx]; cbn.
  - repeat constructor.
  - destruct (id x <=? id r) eqn:E.
    + apply Z.leb_le in E. constructor; [constructor; assumption|].
      constructor; [exact E|]. eapply Forall_impl; [exact Hx|]. cbn. intros; lia.
    + apply Z.leb_gt in E. constructor; [exact IH|].
      rewrite place_perm. constructor; [lia|exact Hx].
Qed.

Lemma by_id_desc_sorted (l : list Row) :
  StronglySorted (fun a b => id b <= id a) (by_id_desc l).
Proof.
  unfold by_id_desc. induction l as [|x l IH]; cbn; [constructor|].
  apply place_sorted, IH.
Qed.

Lemma sorted_strict (l : list Row) :
  NoDup (id <$> l) ->
  StronglySorted (fun a b => id b <= id a) l ->
  StronglySorted (fun a b => id b < id a) l.
Proof.
  induction l as [|x l IH]; intros Hnd Hs; [constructor|].
  rewrite fmap_cons in Hnd. apply NoDup_cons in Hnd as [Hx Hnd].
  apply StronglySorted_inv in Hs as [Hs Hall].
  constructor; [auto|].
  rewrite Forall_forall in Hall |- *. intros y Hy.
  specialize (Hall y Hy).
  assert (id y <> id x).
  { intros E. apply Hx. rewrite <- E. apply list_elem_of_fmap. eauto. }
  lia.
Qed.

(** X12. Row ids are never reused.  Through any session the ids of the
    table stay distinct, positive and not above the [AUTOINCREMENT]
    counter, the counter never decreases, and a row whose id is not
    above the counter the session started with has the id of a row that
    was there at the start: the id of a deleted row is never given to a
    new one.  In particular this holds for every session that starts
    with the empty table. *)
Theorem ids_distinct_and_never_reused (Number_ : string -> JsNumber) :
  (forall (reqs : list (string * Request)) (db : Db),
      ids_ok db ->
      ids_ok (serve Number_ reqs db) /\
      sequence db <= sequence (serve Number_ reqs db) /\
      (forall r, r ∈ items (serve Number_ reqs db) -> id r <= sequence db ->
                 exists r0, r0 ∈ items db /\ id r0 = id r)) /\
  (forall reqs : list (string * Request), ids_ok (serve Number_ reqs empty)).
Proof.
  split; [intros reqs db; apply serve_ids|].
  intros reqs. apply serve_ids. split; [constructor|constructor].
Qed.

(** X13. [GET /items] changes nothing and answers 200 with exactly the
    rows of the table, each once, ordered by id from the largest down;
    strictly so when the ids are distinct. *)
Theorem listing_is_sorted_and_complete
    (Number_ : string -> JsNumber) (now : string) (db : Db) :
  let res := handle Number_ now GET_items db in
  snd res = db /\
  code (fst res) = 200 /\
  exists rows,
    body (fst res) = Js.Arr (row_json <$> rows) /\
    rows ≡ₚ items db /\
    StronglySorted (fun a b => id b <= id a) rows /\
    (NoDup (id <$> items db) -> StronglySorted (fun a b => id b < id a) rows).
Proof.
  cbn. split; [reflexivity|]. split; [reflexivity|].
  exists (by_id_desc (items db)). split; [reflexivity|].
  split; [apply by_id_desc_perm|]. split; [apply by_id_desc_sorted|].
  intros Hnd. apply sorted_strict; [|apply by_id_desc_sorted].
  rewrite by_id_desc_perm. exact Hnd.
Qed.

Lemma rejected_keeps_db (Number_ : string -> JsNumber) (now : string) (req : Request) (db : Db) :
  400 <= code (fst (handle Number_ now req db)) -> snd (handle Number_ now req db) = db.
Proof.
  destruct req as [| |req_body|id_param req_body|id_param]; cbn; try reflexivity.
  - destruct (title_of req_body) as [t|]; cbn; [|reflexivity].
    destruct (nonempty t); cbn; [lia|reflexivity].
  - destruct (title_of req_body) as [t|]; cbn; [|reflexivity].
    destruct (bad_id _); cbn; [reflexivity|].
    destruct (nonempty t); cbn; [|reflexivity].
    destruct (List.find _ _); cbn; [lia|reflexivity].
  - destruct (bad_id _); cbn; [reflexivity|].
    destruct (forallb _ _); cbn; [reflexivity|lia].
Qed.

(** X14. A request answered with a status of 400 or more leaves the
    table and the counter exactly as they were; the table changes only
    under an answer 200 or 201.  So a session whose every answer is an
    error ends with the database it started with. *)
Theorem rejected_requests_change_nothing (Number_ : string -> JsNumber) :
  (forall (now : string) (req : Request) (db : Db),
      let res := handle Number_ now req db in
      (400 <= code (fst res) -> snd res = db) /\
      (snd res <> db -> code (fst res) = 200 \/ code (fst res) = 201)) /\
  (forall (reqs : list (string * Request)) (db : Db),
      Forall (fun res => 400 <= code res) (replies Number_ reqs db) ->
      serve Number_ reqs db = db).
Proof.
  split.
  - intros now req db. cbn zeta. split; [apply rejected_keeps_db|].
    destruct req as [| |req_body|id_param req_body|id_param]; cbn; try congruence.
    + destruct (title_of req_body) as [t|]; cbn; [|congruence].
      destruct (nonempty t); cbn; [auto|congruence].
    + destruct (title_of req_body) as [t|]; cbn; [|congruence].
      destruct (bad_id _); cbn; [congruence|].
      destruct (nonempty t); cbn; [|congruence].
      destruct (List.find _ _); cbn; [auto|congruence].
    + destruct (bad_id _); cbn; [congruence|].
      destruct (forallb _ _); cbn; [congruence|auto].
  - induction reqs as [|[now req] reqs IH]; intros db Hall; cbn; [reflexivity|].
    cbn in Hall. apply Forall_cons in Hall as [H1 H2].
    rewrite (rejected_keeps_db _ _ _ _ H1) in *. apply IH, H2.
Qed.

Lemma forallb_no_id (i : Z) (l : list Row) :
  forallb (fun r => negb (has_id (Finite (inject_Z i)) r)) l = true <->
  (forall r, r ∈ l -> id r <> i).
Proof.
  rewrite forallb_forall. split.
  - intros H r Hr E. apply list_elem_of_In in Hr. specialize (H r Hr).
    rewrite has_id_Z, E, Z.eqb_refl in H. discriminate.
  - intros H r Hr. apply list_elem_of_In in Hr. rewrite has_id_Z.
    destruct (Z.eqb_spec i (id r)) as [E|E]; [|reflexivity].
    exfalso. apply (H r Hr). congruence.
Qed.

Lemma delete_by_id
    (Number_ : string -> JsNumber) (now : string) (p : string) (i : Z) (db : Db) :
  reads_as Number_ p i ->
  let res := handle Number_ now (DELETE_items p) db in
  ((exists r, r ∈ items db /\ id r = i) ->
   code (fst res) = 200 /\
   items (snd res) = filter (fun r => id r <> i) (items db) /\
   sequence (snd res) = sequence db /\
   (forall r, r ∈ items (snd res) -> id r <> i) /\
   forall now', code (fst (handle Number_ now' (DELETE_items p) (snd res))) = 404 /\
                snd (handle Number_ now' (DELETE_items p) (snd res)) = snd res) /\
  ((forall r, r ∈ items db -> id r <> i) ->
   code (fst res) = 404 /\ snd res = db).
Proof.
  intros [Hp Hi]. cbn zeta. cbn -[filter has_id bad_id]. rewrite Hp, bad_id_Z.
  destruct (Z.leb_spec i 0) as [|_]; [lia|]. cbn -[filter has_id bad_id].
  split.
  - intros (r & Hr & Hid).
    destruct (forallb _ _) eqn:Hall.
    { pose proof (proj1 (forallb_no_id i (items db)) Hall) as Hall'. exfalso. apply (Hall' r Hr Hid). }
    cbn -[filter has_id bad_id].
    assert (Hf : filter (fun r => has_id (Finite (inject_Z i)) r = false) (items db)
                 = filter (fun r => id r <> i) (items db)).
    { apply list_filter_iff. intros x. rewrite has_id_Z.
      destruct (Z.eqb_spec i (id x)); split; intros; congruence. }
    rewrite Hf.
    assert (Hgone : forall r, r ∈ filter (fun r => id r <> i) (items db) -> id r <> i).
    { intros x Hx. apply list_elem_of_filter in Hx as [Hx _]. exact Hx. }
    split; [reflexivity|]. split; [reflexivity|]. split; [reflexivity|].
    split; [exact Hgone|].
    intros now'. rewrite (proj2 (forallb_no_id i _) Hgone). split; reflexivity.
  - intros Hnone. rewrite (proj2 (forallb_no_id i _) Hnone). split; reflexivity.
Qed.

(** X15. [DELETE /items/:id] with a parameter that reads as the positive
    integer [i].  When a row has id [i] the answer is 200, exactly the
    rows with that id are gone, the others stay in order, the counter is
    kept, and repeating the request answers 404 and changes nothing.
    When no row has id [i] the answer is 404 and nothing changes. *)
Theorem delete_removes_exactly_that_row
    (Number_ : string -> JsNumber) (now : string) (p : string) (i : Z) (db : Db) :
  reads_as Number_ p i ->
  let res := handle Number_ now (DELETE_items p) db in
  ((exists r, r ∈ items db /\ id r = i) ->
   code (fst res) = 200 /\
   items (snd res) = filter (fun r => id r <> i) (items db) /\
   sequence (snd res) = sequence db /\
   (forall r, r ∈ items (snd res) -> id r <> i) /\
   forall now', code (fst (handle Number_ now' (DELETE_items p) (snd res))) = 404 /\
                snd (handle Number_ now' (DELETE_items p) (snd res)) = snd res) /\
  ((forall r, r ∈ items db -> id r <> i) ->
   code (fst res) = 404 /\ snd res = db).
Proof.
  exact (delete_by_id Number_ now p i db).
Qed.

Lemma delete_removes_exactly_that_row_witness :
  let db := serve Number_of_digits
              [("2024-01-01T10:00:00.000Z", POST_items (titled "uno"));
               ("2024-01-01T10:00:01.000Z", POST_items (titled "dos"))] empty in
  let res := handle Number_of_digits "2024-01-01T10:00:02.000Z" (DELETE_items "1") db in
  code (fst res) = 200 /\
  items (snd res) =
    [{| id := 2; title := "dos"; updated_at := "2024-01-01T10:00:01.000Z" |}] /\
  sequence (snd res) = 2.
Proof.
  destruct (delete_removes_exactly_that_row Number_of_digits "2024-01-01T10:00:02.000Z"
              "1" 1
              (serve Number_of_digits
                 [("2024-01-01T10:00:00.000Z", POST_items (titled "uno"));
                  ("2024-01-01T10:00:01.000Z", POST_items (titled "dos"))] empty))
    as [H _].
  - split; [reflexivity | lia].
  - destruct H as (Hc & Hitems & Hseq & _).
    + exists {| id := 1; title := "uno"; updated_at := "2024-01-01T10:00:00.000Z" |}.
      split; [vm_compute; left | reflexivity].
    + split; [exact Hc|]. split; [rewrite Hitems; reflexivity | rewrite Hseq; reflexivity].
Defined.

Lemma find_by_id (i : Z) (l : list Row) :
  match List.find (has_id (Finite (inject_Z i))) l with
  | Some r => r ∈ l /\ id r = i
  | None => forall r, r ∈ l -> id r <> i
  end.
Proof.
  destruct (List.find _ l) as [r|] eqn:E.
  - apply List.find_some in E as [Hin Hid]. rewrite has_id_Z in Hid.
    apply Z.eqb_eq in Hid. split; [apply list_elem_of_In, Hin|congruence].
  - intros r Hr Hid. apply list_elem_of_In in Hr.
    pose proof (List.find_none _ _ E r Hr) as H. rewrite has_id_Z, Hid, Z.eqb_refl in H.
    discriminate.
Qed.

Lemma put_by_id
    (Number_ : string -> JsNumber) (now : string) (p : string) (i : Z)
    (req_body : Js.Value) (raw : string) (db : Db) :
  reads_as Number_ p i ->
  Js.String_ (Js.nullish (Js.get req_body "title") (Js.Str EmptyString)) = Some raw ->
  nonempty (trim raw) = true ->
  let res := handle Number_ now (PUT_items p req_body) db in
  ((exists r, r ∈ items db /\ id r = i) ->
   code (fst res) = 200 /\
   items (snd res) =
     (fun r => if i =? id r
               then {| id := id r; title := trim raw; updated_at := now |}
               else r) <$> items db /\
   sequence (snd res) = sequence db /\
   id <$> items (snd res) = id <$> items db /\
   length (items (snd res)) = length (items db) /\
   body (fst res) = row_json {| id := i; title := trim raw; updated_at := now |}) /\
  ((forall r, r ∈ items db -> id r <> i) ->
   code (fst res) = 404 /\ snd res = db).
Proof.
  intros [Hp Hi] Hraw Hne. cbn zeta. cbn -[fmap has_id bad_id nonempty trim].
  unfold title_of. rewrite Hraw. cbn [fmap option_fmap option_map].
  cbn -[fmap has_id bad_id nonempty trim].
  rewrite Hp, bad_id_Z. destruct (Z.leb_spec i 0) as [|_]; [lia|].
  cbn -[fmap has_id bad_id nonempty trim]. rewrite Hne. cbn -[fmap has_id bad_id nonempty trim].
  pose proof (find_by_id i (items db)) as Hfind.
  destruct (List.find _ _) as [existing|]; cbn -[fmap has_id bad_id nonempty trim].
  - destruct Hfind as [Hin Hid]. split; [|intros Hnone; exfalso; eapply Hnone; eauto].
    intros _.
    assert (Hmap : ((fun r => if has_id (Finite (inject_Z i)) r
                              then {| id := id r; title := trim raw; updated_at := now |}
                              else r) <$> items db)
                   = ((fun r => if i =? id r
                                then {| id := id r; title := trim raw; updated_at := now |}
                                else r) <$> items db)).
    { apply list_fmap_ext. intros k x _. rewrite has_id_Z. reflexivity. }
    rewrite Hmap. split; [reflexivity|]. split; [reflexivity|]. split; [reflexivity|].
    split; [|split].
    + rewrite <- list_fmap_compose. apply list_fmap_ext.
      intros k x _. cbn. destruct (i =? id x); reflexivity.
    + apply length_fmap.
    + rewrite Hid. reflexivity.
  - split; [|intros _; split; reflexivity].
    intros (r & Hr & Hid). exfalso. eapply Hfind; eauto.
Qed.

(** X16. [PUT /items/:id] with a parameter that reads as the positive
    integer [i] and a title that is not blank.  When a row has id [i]
    the answer is 200 with the updated row; the rows with id [i] get the
    trimmed title and the time of the request, every other row is as it
    was, and neither the ids, their order, the number of rows nor the
    counter change.  When no row has id [i] the answer is 404 and
    nothing changes. *)
Theorem put_updates_only_that_row
    (Number_ : string -> JsNumber) (now : string) (p : string) (i : Z)
    (req_body : Js.Value) (raw : string) (db : Db) :
  reads_as Number_ p i ->
  Js.String_ (Js.nullish (Js.get req_body "title") (Js.Str EmptyString)) = Some raw ->
  nonempty (trim raw) = true ->
  let res := handle Number_ now (PUT_items p req_body) db in
  ((exists r, r ∈ items db /\ id r = i) ->
   code (fst res) = 200 /\
   items (snd res) =
     (fun r => if i =? id r
               then {| id := id r; title := trim raw; updated_at := now |}
               else r) <$> items db /\
   sequence (snd res) = sequence db /\
   id <$> items (snd res) = id <$> items db /\
   length (items (snd res)) = length (items db) /\
   body (fst res) = row_json {| id := i; title := trim raw; updated_at := now |}) /\
  ((forall r, r ∈ items db -> id r <> i) ->
   code (fst res) = 404 /\ snd res = db).
Proof.
  exact (put_by_id Number_ now p i req_body raw db).
Qed.

Lemma put_updates_only_that_row_witness :
  let db := serve Number_of_digits
              [("2024-01-01T10:00:00.000Z", POST_items (titled "uno"));
               ("2024-01-01T10:00:01.000Z", POST_items (titled "dos"))] empty in
  let res := handle Number_of_digits "2024-01-01T10:00:02.000Z"
               (PUT_items "2" (titled "  tres ")) db in
  code (fst res) = 200 /\
  items (snd res) =
    [{| id := 1; title := "uno"; updated_at := "2024-01-01T10:00:00.000Z" |};
     {| id := 2; title := "tres"; updated_at := "2024-01-01T10:00:02.000Z" |}].
Proof.
  destruct (put_updates_only_that_row Number_of_digits "2024-01-01T10:00:02.000Z"
              "2" 2 (titled "  tres ") "  tres "
              (serve Number_of_digits
                 [("2024-01-01T10:00:00.000Z", POST_items (titled "uno"));
                  ("2024-01-01T10:00:01.000Z", POST_items (titled "dos"))] empty))
    as [H _].
  - split; [reflexivity | lia].
  - reflexivity.
  - reflexivity.
  - destruct H as (Hc & Hitems & _).
    + exists {| id := 2; title := "dos"; updated_at := "2024-01-01T10:00:01.000Z" |}.
      split; [vm_compute; right; left | reflexivity].
    + split; [exact Hc | rewrite Hitems; reflexivity].
Defined.

Lemma trim_fixed (r : Row) : well_titled r -> trim (title r) = title r.
Proof.
  intros (_ & Hfirst & Hlast). unfold trim.
  rewrite (trimStart_fixed _ Hfirst). apply trimEnd_fixed, Hlast.
Qed.

(** X17. Sending back the title a row already has changes no title: for
    a row of a table with distinct ids whose title is trimmed and not
    empty, [PUT] of that title to its id answers 200 and leaves the
    titles and the ids of all rows as they were; every other row is
    unchanged (only the time of the row itself is renewed). *)
Theorem put_of_the_stored_title_keeps_titles
    (Number_ : string -> JsNumber) (now : string) (p : string) (r : Row) (db : Db) :
  NoDup (id <$> items db) ->
  r ∈ items db ->
  well_titled r ->
  reads_as Number_ p (id r) ->
  let res := handle Number_ now (PUT_items p (titled (title r))) db in
  code (fst res) = 200 /\
  title <$> items (snd res) = title <$> items db /\
  id <$> items (snd res) = id <$> items db /\
  forall x, x ∈ items db -> id x <> id r -> x ∈ items (snd res).
Proof.
  intros Hnd Hr Hwell Hp.
  assert (Hne : nonempty (trim (title r)) = true).
  { rewrite (trim_fixed r Hwell). destruct Hwell as [H _].
    destruct (title r); [congruence|reflexivity]. }
  destruct (put_by_id Number_ now p (id r) (titled (title r)) (title r) db
              Hp eq_refl Hne) as [H _].
  destruct (H (ex_intro _ r (conj Hr eq_refl))) as (Hc & Hitems & _ & Hids & _ & _).
  cbn zeta. split; [exact Hc|]. split; [|split; [exact Hids|]].
  - rewrite Hitems, <- list_fmap_compose. apply list_fmap_ext.
    intros k x Hk. cbn. destruct (Z.eqb_spec (id r) (id x)) as [E|E]; [|reflexivity].
    cbn. rewrite (trim_fixed r Hwell).
    apply list_elem_of_lookup in Hr as [j Hj].
    assert (j = k).
    { eapply NoDup_lookup; [exact Hnd| |].
      - rewrite list_lookup_fmap, Hj. reflexivity.
      - rewrite list_lookup_fmap, Hk. cbn. congruence. }
    subst j. congruence.
  - intros x Hx Hid. rewrite Hitems.
    apply list_elem_of_fmap. exists x. split; [|exact Hx].
    destruct (Z.eqb_spec (id r) (id x)); [congruence|reflexivity].
Qed.

Lemma put_of_the_stored_title_keeps_titles_witness :
  let r := {| id := 1; title := "uno"; updated_at := "2024-01-01T10:00:00.000Z" |} in
  let db := {| items := [r; {| id := 2; title := "dos";
                               updated_at := "2024-01-01T10:00:01.000Z" |}];
               sequence := 2 |} in
  let res := handle Number_of_digits "2024-01-01T10:00:02.000Z"
               (PUT_items "1" (titled "uno")) db in
  code (fst res) = 200 /\
  title <$> items (snd res) = ["uno"; "dos"] /\
  id <$> items (snd res) = [1; 2].
Proof.
  destruct (put_of_the_stored_title_keeps_titles Number_of_digits
              "2024-01-01T10:00:02.000Z" "1"
              {| id := 1; title := "uno"; updated_at := "2024-01-01T10:00:00.000Z" |}
              {| items := [{| id := 1; title := "uno";
                              updated_at := "2024-01-01T10:00:00.000Z" |};
                           {| id := 2; title := "dos";
                              updated_at := "2024-01-01T10:00:01.000Z" |}];
                 sequence := 2 |})
    as (Hc & Ht & Hi & _).
  - cbn. apply NoDup_cons. split; [|apply NoDup_singleton].
    intros H. apply list_elem_of_singleton in H. discriminate H.
  - left.
  - split; [discriminate|]. split; cbn; intros c [= <-]; reflexivity.
  - split; reflexivity.
  - split; [exact Hc|]. split; [exact Ht | exact Hi].
Defined.

Lemma filter_keeps_all {A} (P : A -> Prop) `{forall x, Decision (P x)} (l : list A) :
  Forall P l -> filter P l = l.
Proof.
  induction 1 as [|x l Hx _ IH]; [reflexivity|].
  rewrite filter_cons_True by exact Hx. rewrite IH. reflexivity.
Qed.

(** X18. Creating a row and deleting it again restores the rows, but not
    the counter: after [POST] of a title that is not blank (answer 201
    with the new row, whose id is the next one) and [DELETE] of that id
    (answer 200), the table holds exactly the rows it held before, the
    counter stands at the id that was used, and the next row will get
    the id after it. *)
Theorem post_then_delete_restores_the_table
    (Number_ : string -> JsNumber) (now now' : string) (p : string)
    (req_body : Js.Value) (raw : string) (db : Db) :
  Js.String_ (Js.nullish (Js.get req_body "title") (Js.Str EmptyString)) = Some raw ->
  nonempty (trim raw) = true ->
  Number_ p = Finite (inject_Z (next_id db)) ->
  let created := handle Number_ now (POST_items req_body) db in
  let removed := handle Number_ now' (DELETE_items p) (snd created) in
  code (fst created) = 201 /\
  body (fst created) = row_json {| id := next_id db; title := trim raw; updated_at := now |} /\
  code (fst removed) = 200 /\
  items (snd removed) = items db /\
  sequence (snd removed) = next_id db /\
  next_id (snd removed) = next_id db + 1.
Proof.
  intros Hraw Hne Hp.
  assert (Hpos : 0 < next_id db).
  { pose proof (max_id_nonneg (items db)). unfold next_id. fold (max_id (items db)). lia. }
  assert (Hcreated : handle Number_ now (POST_items req_body) db =
                     ({| code := 201;
                         body := row_json {| id := next_id db; title := trim raw;
                                             updated_at := now |} |},
                      {| items := items db ++ [{| id := next_id db; title := trim raw;
                                                  updated_at := now |}];
                         sequence := next_id db |})).
  { cbn -[next_id nonempty trim]. unfold title_of. rewrite Hraw.
    cbn [fmap option_fmap option_map]. cbn -[next_id nonempty trim].
    rewrite Hne. reflexivity. }
  cbn zeta. rewrite Hcreated. cbn [fst snd code body].
  split; [reflexivity|]. split; [reflexivity|].
  set (row := {| id := next_id db; title := trim raw; updated_at := now |}).
  set (db1 := {| items := items db ++ [row]; sequence := next_id db |}).
  destruct (delete_by_id Number_ now' p (next_id db) db1
              (conj Hp Hpos)) as [H _].
  destruct H as (Hc & Hitems & Hseq & _).
  { exists row. split; [|reflexivity]. cbn. apply elem_of_app. right. left. }
  assert (Hold : filter (fun r => id r <> next_id db) (items db1) = items db).
  { cbn [items db1]. rewrite filter_app.
    rewrite filter_keeps_all.
    - rewrite filter_cons_False, filter_nil by (cbn; tauto). apply app_nil_r.
    - apply Forall_forall. intros r Hr. apply next_id_fresh in Hr. lia. }
  split; [exact Hc|]. rewrite Hitems, Hold. split; [reflexivity|].
  split; [exact Hseq|].
  unfold next_id at 1. rewrite Hitems, Hold, Hseq. cbn [sequence db1].
  fold (max_id (items db)). pose proof (max_id_nonneg (items db)).
  assert (max_id (items db) < next_id db) by (unfold next_id; fold (max_id (items db)); lia).
  lia.
Qed.

Lemma post_then_delete_restores_the_table_witness :
  let created := handle Number_of_digits "2024-01-01T10:00:00.000Z"
                   (POST_items (titled " uno ")) empty in
  let removed := handle Number_of_digits "2024-01-01T10:00:01.000Z"
                   (DELETE_items "1") (snd created) in
  code (fst created) = 201 /\
  code (fst removed) = 200 /\
  items (snd removed) = [] /\
  next_id (snd removed) = 2.
Proof.
  destruct (post_then_delete_restores_the_table Number_of_digits
              "2024-01-01T10:00:00.000Z" "2024-01-01T10:00:01.000Z" "1"
              (titled " uno ") " uno " empty eq_refl eq_refl eq_refl)
    as (Hc & _ & Hd & Hitems & _ & Hnext).
  split; [exact Hc|]. split; [exact Hd|]. split; [exact Hitems | exact Hnext].
Defined.

(** *** The clients' guards and the server's checks *)

Lemma canAdd_nonempty (t : string) : canAdd t = nonempty (trim t).
Proof. unfold canAdd. destruct (trim t); reflexivity. Qed.

(** X19. The guard of the add button agrees with the server.  For the
    title typed, [canAdd] holds exactly when [POST /items] with that
    title answers 201, and then the row stored carries the trimmed
    title; when [canAdd] fails the server would answer 400 "title
    requerido" and store nothing. *)
Theorem add_button_matches_the_server
    (Number_ : string -> JsNumber) (now : string) (typed : string) (db : Db) :
  let res := handle Number_ now (POST_items (titled typed)) db in
  (canAdd typed = true ->
   code (fst res) = 201 /\
   body (fst res) = row_json {| id := next_id db; title := trim typed; updated_at := now |} /\
   items (snd res) =
     (items db ++ [{| id := next_id db; title := trim typed; updated_at := now |}])%list) /\
  (canAdd typed = false ->
   code (fst res) = 400 /\ body (fst res) = error_json "title requerido" /\ snd res = db).
Proof.
  cbn zeta. rewrite canAdd_nonempty.
  cbn -[next_id nonempty trim]. unfold title_of. cbn -[next_id nonempty trim].
  destruct (nonempty (trim typed)); cbn -[next_id nonempty trim].
  - split; [intros _; repeat split; reflexivity|discriminate].
  - split; [discriminate|intros _; repeat split; reflexivity].
Qed.

(** X20. What [edit] of the web page sends is what the server stores.
    When the dialog yields a title to send (the answer was not
    cancelled and is not blank) and the row exists, [PUT] of that title
    to the row's id answers 200, the row's title becomes exactly the
    title sent, which is the trimmed answer and not empty, and the rows
    with another id are as they were. *)
Theorem edit_stores_what_it_sends
    (Number_ : string -> JsNumber) (now : string) (i : Z) (next : option string)
    (t : string) (db : Db) :
  reads_as Number_ (Js.string_of_Z i) i ->
  (exists r, r ∈ items db /\ id r = i) ->
  edit_title next = Some t ->
  let res := handle Number_ now (PUT_items (Js.string_of_Z i) (titled t)) db in
  code (fst res) = 200 /\
  body (fst res) = row_json {| id := i; title := t; updated_at := now |} /\
  (forall r, r ∈ items (snd res) -> id r = i -> title r = t) /\
  (forall r, r ∈ items db -> id r <> i -> r ∈ items (snd res)) /\
  t <> EmptyString /\
  exists typed, next = Some typed /\ t = trim typed.
Proof.
  intros Hp Hrow Hedit.
  destruct next as [typed|]; [|discriminate]. cbn in Hedit.
  destruct (nonempty (trim typed)) eqn:Hne; [|discriminate].
  injection Hedit as <-.
  assert (Hne' : nonempty (trim (trim typed)) = true) by (rewrite trim_idempotent; exact Hne).
  destruct (put_by_id Number_ now (Js.string_of_Z i) i
              (titled (trim typed)) (trim typed) db Hp eq_refl Hne') as [H _].
  destruct (H Hrow) as (Hc & Hitems & _ & _ & _ & Hbody).
  rewrite trim_idempotent in Hitems, Hbody.
  cbn zeta. split; [exact Hc|]. split; [exact Hbody|].
  split; [|split; [|split]].
  - intros r Hr Hid. rewrite Hitems in Hr.
    apply list_elem_of_fmap in Hr as (r0 & -> & _).
    destruct (Z.eqb_spec i (id r0)) as [E|E]; [reflexivity|].
    cbn in Hid. congruence.
  - intros r Hr Hid. rewrite Hitems. apply list_elem_of_fmap. exists r.
    split; [|exact Hr]. destruct (Z.eqb_spec i (id r)); [congruence|reflexivity].
  - intros E. rewrite E in Hne. discriminate.
  - eauto.
Qed.

Lemma edit_stores_what_it_sends_witness :
  let db := {| items := [{| id := 1; title := "uno";
                            updated_at := "2024-01-01T10:00:00.000Z" |}];
               sequence := 1 |} in
  let res := handle Number_of_digits "2024-01-01T10:00:02.000Z"
               (PUT_items (Js.string_of_Z 1) (titled "nuevo")) db in
  edit_title (Some "  nuevo  ") = Some "nuevo" /\
  code (fst res) = 200 /\
  body (fst res) =
    row_json {| id := 1; title := "nuevo"; updated_at := "2024-01-01T10:00:02.000Z" |}.
Proof.
  destruct (edit_stores_what_it_sends Number_of_digits "2024-01-01T10:00:02.000Z" 1
              (Some "  nuevo  ") "nuevo"
              {| items := [{| id := 1; title := "uno";
                              updated_at := "2024-01-01T10:00:00.000Z" |}];
                 sequence := 1 |})
    as (Hc & Hb & _).
  - split; [reflexivity | lia].
  - eexists. split; [left | reflexivity].
  - reflexivity.
  - split; [reflexivity|]. split; [exact Hc | exact Hb].
Defined.

End Items.

(** *** The list of the phone, from the server's table *)

(** X21. What the phone lists is the server's table.  When the request
    of [load] for ["/items"] is answered by the server's handler, [load]
    returns normally, the error line is empty, the connected endpoint is
    kept, and the list given to [setItems] holds exactly the rows of the
    table, each once, ordered by id from the largest down. *)
Theorem load_shows_the_listing
    (Number_ : string -> Server.JsNumber) (now : string) (db : Server.Db)
    (w : World) (s : Sys) (url : string) :
  url <> EmptyString ->
  net w (url ++ "/items") =
    Some (Fulfilled (over_the_wire (fst (Server.handle Number_ now Server.GET_items db)))) ->
  let r := exec w (load (Some url)) s in
  exists rows,
    outcome r = Returned (Some (Js.Arr (Server.row_json <$> rows))) /\
    rows ≡ₚ Server.items db /\
    StronglySorted (fun a b => Server.id b <= Server.id a) rows /\
    err (final r) = EmptyString /\
    baseUrl (final r) = baseUrl s.
Proof.
  intros Hurl Hnet. cbn zeta.
  destruct (load_run w s url Hurl) as [Hf Ho]. cbn zeta in Hf, Ho.
  destruct (api_run w s url "/items" []) as [_ Ha].
  assert (Ha' : outcome (exec w (api url "/items" []) s) =
                Returned (Js.Arr (Server.row_json <$> Server.by_id_desc (Server.items db))))
    by (rewrite Ha, Hnet; reflexivity).
  rewrite Ha' in Hf, Ho. rewrite Hf, Ho.
  exists (Server.by_id_desc (Server.items db)).
  split; [reflexivity|]. split; [apply by_id_desc_perm|].
  split; [apply by_id_desc_sorted|]. split; reflexivity.
Qed.

Lemma load_shows_the_listing_witness :
  let db := Server.serve Server.Number_of_digits
              [("2024-01-01T10:00:00.000Z", Server.POST_items (ServerFacts.titled "uno"));
               ("2024-01-01T10:00:01.000Z", Server.POST_items (ServerFacts.titled "dos"))]
              Server.empty in
  let w := {| net := fun _ =>
                       Some (Fulfilled
                               (over_the_wire
                                  (fst (Server.handle Server.Number_of_digits
                                          "2024-01-01T10:00:02.000Z" Server.GET_items db))));
              getItem_error := None; setItem_error := None; deleteItem_error := None |} in
  let r := exec w (load (Some "http://192.168.1.50:4310")) (initial ∅) in
  exists rows,
    outcome r = Returned (Some (Js.Arr (Server.row_json <$> rows))) /\
    rows ≡ₚ Server.items db /\
    StronglySorted (fun a b => Server.id b <= Server.id a) rows /\
    err (final r) = EmptyString /\
    baseUrl (final r) = None.
Proof.
  apply (load_shows_the_listing Server.Number_of_digits "2024-01-01T10:00:02.000Z"
           (Server.serve Server.Number_of_digits
              [("2024-01-01T10:00:00.000Z", Server.POST_items (ServerFacts.titled "uno"));
               ("2024-01-01T10:00:01.000Z", Server.POST_items (ServerFacts.titled "dos"))]
              Server.empty)).
  - discriminate.
  - reflexivity.
Defined.

(** *** The addresses offered to the clients *)

Lemma new_Set_spec (seen ips : list string) :
  NoDup (new_Set seen ips) /\
  (forall a, a ∈ new_Set seen ips <-> a ∈ ips /\ a ∉ seen) /\
  sublist (new_Set seen ips) ips.
Proof.
  revert seen. induction ips as [|ip rest IH]; intros seen; cbn.
  - split; [constructor|]. split; [|constructor].
    intros a. split; [intros H; inversion H|intros [H _]; inversion H].
  - destruct (IH seen) as (N1 & M1 & S1). destruct (IH (ip :: seen)) as (N2 & M2 & S2).
    destruct (bool_decide_reflect (ip ∈ seen)) as [Hin|Hnin].
    + split; [exact N1|]. split; [|apply sublist_cons, S1].
      intros a. rewrite M1, elem_of_cons. split; [tauto|].
      intros [[->|H] Hs]; [contradiction|tauto].
    + split; [|split; [|apply sublist_skip, S2]].
      * constructor; [|exact N2]. rewrite M2, elem_of_cons. tauto.
      * intros a. rewrite !elem_of_cons, M2, elem_of_cons.
        split.
        -- intros [->|[H Hs]]; [tauto|]. split; [tauto|]. tauto.
        -- intros [[->|H] Hs]; [tauto|]. destruct (decide (a = ip)); [tauto|]. tauto.
Qed.

Lemma new_Set_order (ips seen : list string) (i j : nat) (a b : string) :
  (i < j)%nat ->
  new_Set seen ips !! i = Some a ->
  new_Set seen ips !! j = Some b ->
  exists P1 P2, ips = (P1 ++ a :: P2)%list /\ b ∉ P1.
Proof.
  revert seen i j. induction ips as [|ip rest IH]; intros seen i j Hij Ha Hb;
    [discriminate Ha|].
  cbn [new_Set] in Ha, Hb.
  destruct (bool_decide_reflect (ip ∈ seen)) as [Hin|Hnin].
  - destruct (IH seen i j Hij Ha Hb) as (P1 & P2 & -> & HP1).
    exists (ip :: P1), P2. split; [reflexivity|].
    apply not_elem_of_cons. split; [|exact HP1].
    intros ->. apply list_elem_of_lookup_2 in Hb.
    apply (new_Set_spec seen (P1 ++ a :: P2)) in Hb as [_ Hb]. contradiction.
  - destruct i as [|i].
    + injection Ha as <-. exists [], rest. split; [reflexivity|apply not_elem_of_nil].
    + destruct j as [|j]; [lia|]. cbn in Ha, Hb.
      destruct (IH (ip :: seen) i j ltac:(lia) Ha Hb) as (P1 & P2 & -> & HP1).
      exists (ip :: P1), P2. split; [reflexivity|].
      apply not_elem_of_cons. split; [|exact HP1].
      intros ->. apply list_elem_of_lookup_2 in Hb.
      apply (new_Set_spec (ip :: seen) (P1 ++ a :: P2)) in Hb as [_ Hb].
      apply Hb. left.
Qed.

Lemma flat_map_split {A B : Type} (f : A -> list B) (l : list A) (P1 P2 : list B) (a : B) :
  flat_map f l = (P1 ++ a :: P2)%list ->
  exists l1 x l2 q1 q2,
    l = (l1 ++ x :: l2)%list /\ f x = (q1 ++ a :: q2)%list /\
    P1 = (flat_map f l1 ++ q1)%list.
Proof.
  revert P1. induction l as [|x l IH]; intros P1 H; cbn in H.
  - destruct P1; discriminate H.
  - apply app_eq_inv in H as [(k & Hfx & Hk)|(k & HP1 & Hk)].
    + destruct k as [|c k].
      * cbn in Hk. rewrite app_nil_r in Hfx. symmetry in Hk.
        destruct (IH [] Hk) as (l1 & y & l2 & q1 & q2 & -> & Hy & Hq).
        exists (x :: l1), y, l2, q1, q2. split; [reflexivity|]. split; [exact Hy|].
        cbn. rewrite <- app_assoc, <- Hq, app_nil_r. symmetry. exact Hfx.
      * injection Hk as <- ->. exists [], x, l, P1, k. repeat split; assumption.
    + destruct (IH k Hk) as (l1 & y & l2 & q1 & q2 & -> & Hy & ->).
      exists (x :: l1), y, l2, q1, q2. split; [reflexivity|]. split; [exact Hy|].
      cbn. rewrite HP1, app_assoc. reflexivity.
Qed.

Lemma lan_addresses_split (infos : list NetworkInterfaceInfo) (q1 q2 : list string)
    (a : string) :
  address <$> List.filter lan_ipv4 infos = (q1 ++ a :: q2)%list ->
  exists I1 n I2,
    infos = (I1 ++ n :: I2)%list /\ lan_ipv4 n = true /\ address n = a /\
    q1 = address <$> List.filter lan_ipv4 I1.
Proof.
  revert q1. induction infos as [|m rest IH]; intros q1 H; cbn in H.
  - destruct q1; discriminate H.
  - destruct (lan_ipv4 m) eqn:Hm.
    + destruct q1 as [|c q1]; cbn in H.
      * injection H as <- _. exists [], m, rest. repeat split; assumption.
      * injection H as <- H. destruct (IH q1 H) as (I1 & n & I2 & -> & Hn & Ha & ->).
        exists (m :: I1), n, I2. split; [reflexivity|]. split; [exact Hn|].
        split; [exact Ha|]. cbn. rewrite Hm. reflexivity.
    + destruct (IH q1 H) as (I1 & n & I2 & -> & Hn & Ha & ->).
      exists (m :: I1), n, I2. split; [reflexivity|]. split; [exact Hn|].
      split; [exact Ha|]. cbn. rewrite Hm. reflexivity.
Qed.

Lemma lan_ipv4_inv (n : NetworkInterfaceInfo) :
  lan_ipv4 n = true <-> family n = "IPv4" /\ internal n = false.
Proof.
  unfold lan_ipv4. rewrite andb_true_iff, String.eqb_eq, negb_true_iff. reflexivity.
Qed.

(** X22. [getLanIPv4] returns each address once, and an address is
    returned exactly when some interface entry of family "IPv4" that is
    not internal carries it.  The addresses come in the order in which
    the loops first meet them: when [a] is returned before [b], some
    entry carrying [a] comes, in the order of the interface names and of
    the entries of an interface, before every entry that carries
    [b]. *)
Theorem lan_addresses_are_distinct_and_complete
    (nets : list (string * option (list NetworkInterfaceInfo))) :
  NoDup (getLanIPv4 nets) /\
  (forall a, a ∈ getLanIPv4 nets <->
             exists name infos n,
               (name, Some infos) ∈ nets /\ n ∈ infos /\
               family n = "IPv4" /\ internal n = false /\ address n = a) /\
  (forall (i j : nat) (a b : string),
      (i < j)%nat ->
      getLanIPv4 nets !! i = Some a ->
      getLanIPv4 nets !! j = Some b ->
      exists before name earlier n later after,
        nets = (before ++ (name, Some (earlier ++ n :: later)) :: after)%list /\
        family n = "IPv4" /\ internal n = false /\ address n = a /\
        (forall name' infos m,
            (name', Some infos) ∈ before -> m ∈ infos ->
            family m = "IPv4" -> internal m = false -> address m <> b) /\
        (forall m, m ∈ earlier ->
                   family m = "IPv4" -> internal m = false -> address m <> b)).
Proof.
  unfold getLanIPv4. destruct (new_Set_spec [] (pushed nets)) as (N & M & _).
  split; [exact N|]. split.
  - intros a. rewrite M. unfold pushed. split.
    + intros [Hin _]. apply list_elem_of_In, in_flat_map in Hin as ([name v] & Hentry & Ha).
      cbn in Ha. apply list_elem_of_In, list_elem_of_fmap in Ha as (n & -> & Hn).
      apply list_elem_of_In, filter_In in Hn as [Hn Hlan].
      destruct v as [infos|]; [|inversion Hn]. cbn in Hn.
      apply lan_ipv4_inv in Hlan as [Hf Hi].
      exists name, infos, n. repeat split; auto.
      * apply list_elem_of_In, Hentry.
      * apply list_elem_of_In, Hn.
    + intros (name & infos & n & Hentry & Hn & Hf & Hi & <-).
      split; [|apply not_elem_of_nil].
      apply list_elem_of_In, in_flat_map. exists (name, Some infos).
      split; [apply list_elem_of_In, Hentry|]. cbn.
      apply list_elem_of_In, list_elem_of_fmap. exists n. split; [reflexivity|].
      apply list_elem_of_In, filter_In. split; [apply list_elem_of_In, Hn|].
      apply lan_ipv4_inv. split; assumption.
  - intros i j a b Hij Ha Hb.
    destruct (new_Set_order (pushed nets) [] i j a b Hij Ha Hb) as (P1 & P2 & Hpushed & HP1).
    unfold pushed in Hpushed.
    apply flat_map_split in Hpushed
      as (before & [name v] & after & q1 & q2 & -> & Hentry & ->).
    cbn [snd] in Hentry.
    destruct v as [infos|]; [|destruct q1; discriminate Hentry].
    change (default [] (Some infos)) with infos in Hentry.
    apply lan_addresses_split in Hentry as (earlier & n & later & -> & Hn & Hna & ->).
    apply lan_ipv4_inv in Hn as [Hf Hi].
    exists before, name, earlier, n, later, after.
    split; [reflexivity|]. split; [exact Hf|]. split; [exact Hi|]. split; [exact Hna|].
    apply not_elem_of_app in HP1 as [Hbefore Hearlier]. split.
    + intros name' infos m Hentry Hm Hmf Hmi Hb'. apply Hbefore.
      apply list_elem_of_In, in_flat_map. exists (name', Some infos).
      split; [apply list_elem_of_In, Hentry|]. cbn.
      apply list_elem_of_In, list_elem_of_fmap. exists m. split; [symmetry; exact Hb'|].
      apply list_elem_of_In, filter_In. split; [apply list_elem_of_In, Hm|].
      apply lan_ipv4_inv. split; assumption.
    + intros m Hm Hmf Hmi Hb'. apply Hearlier.
      apply list_elem_of_fmap. exists m. split; [symmetry; exact Hb'|].
      apply list_elem_of_In, filter_In. split; [apply list_elem_of_In, Hm|].
      apply lan_ipv4_inv. split; assumption.
Qed.

Lemma lan_addresses_are_distinct_and_complete_witness :
  let nets :=
    [("lo", Some [{| family := "IPv4"; internal := true; address := "127.0.0.1" |}]);
     ("eth0", Some [{| family := "IPv6"; internal := false; address := "fe80::1c2a" |};
                    {| family := "IPv4"; internal := false; address := "192.168.1.50" |}]);
     ("wlan0", Some [{| family := "IPv4"; internal := false; address := "10.0.0.9" |};
                     {| family := "IPv4"; internal := false; address := "192.168.1.50" |}]);
     ("tun0", None)] in
  NoDup (getLanIPv4 nets) /\ getLanIPv4 nets = ["192.168.1.50"; "10.0.0.9"].
Proof.
  split; [|reflexivity].
  apply (lan_addresses_are_distinct_and_complete
           [("lo", Some [{| family := "IPv4"; internal := true; address := "127.0.0.1" |}]);
            ("eth0", Some [{| family := "IPv6"; internal := false;
                              address := "fe80::1c2a" |};
                           {| family := "IPv4"; internal := false;
                              address := "192.168.1.50" |}]);
            ("wlan0", Some [{| family := "IPv4"; internal := false;
                               address := "10.0.0.9" |};
                            {| family := "IPv4"; internal := false;
                               address := "192.168.1.50" |}]);
            ("tun0", None)]).
Defined.

(** X23. Every URL that [GET /server-info] offers is accepted by the
    scanner of the phone.  The handler answers 200 with [ok] true, the
    port, and under [urls] exactly the texts [http://<ip>:<port>], one
    for each address of [getLanIPv4] and in its order, the port being
    the [PORT] of the environment when that is set and not empty and
    4310 otherwise.  Each such URL starts with "http" after trimming
    (and is its own trimmed form when the port is the default one); and
    when the phone scans a code whose text decodes to the web page's
    payload for such a URL, the probe of the URL answers yes and the
    store accepts the write, the handler returns with that URL stored
    and connected, the scanner closed and no alert shown. *)
Theorem offered_urls_pass_the_scanner
    (env_PORT : option string) (now : string)
    (nets : list (string * option (list NetworkInterfaceInfo))) :
  let port := match env_PORT with
              | Some (String c r) => String c r
              | _ => "4310"
              end in
  let urls := (fun ip => "http://" ++ ip ++ ":" ++ port) <$> getLanIPv4 nets in
  let answer := server_info env_PORT now nets in
  Server.code answer = 200 /\
  Js.get (Server.body answer) "ok" = Js.Bool true /\
  Js.get (Server.body answer) "port" =
    match env_PORT with
    | Some (String c r) => Js.Str (String c r)
    | _ => Js.Num 4310
    end /\
  Js.get (Server.body answer) "urls" = Js.Arr (Js.Str <$> urls) /\
  forall u, u ∈ urls ->
    startsWith (trim u) "http" = true /\
    (env_PORT = None -> trim u = u) /\
    forall (JSON_parse : string -> option Js.Value) (data : string) (ts : Z)
           (w : World) (s : Sys),
      JSON_parse data = Some (qrPayload u ts) ->
      probe w (trim u) = Returned true ->
      setItem_error w = None ->
      let r := exec w (onQrScanned JSON_parse data) s in
      outcome r = Returned tt /\
      baseUrl (final r) = Some (trim u) /\
      secureStore (final r) !! STORE_KEY = Some (trim u) /\
      qrOpen (final r) = false /\
      alerts (final r) = alerts s.
Proof.
  intros port urls answer. subst urls answer.
  assert (Hport : Js.String_ (PORT env_PORT) = Some port /\
                  (env_PORT = None -> port = "4310")).
  { subst port. destruct env_PORT as [[|c p]|]; (split; [reflexivity|]);
      try discriminate. reflexivity. }
  destruct Hport as (Hport & Hdefault).
  unfold server_info. rewrite Hport. cbv zeta.
  split; [reflexivity|]. split; [reflexivity|].
  split; [destruct env_PORT as [[|c p]|]; reflexivity|].
  split; [reflexivity|].
  clearbody port.
  intros u Hu. apply list_elem_of_fmap in Hu as (ip & -> & _).
  split; [apply trim_http|]. split.
  - intros Henv. rewrite (Hdefault Henv). apply trim_fixed_string.
    + cbn. intros c [= <-]. reflexivity.
    + intros c Hc.
      assert (H0 : last_char ("http://" ++ ip ++ ":" ++ "4310") = Some "0"%char)
        by (do 2 apply last_char_app; reflexivity).
      rewrite H0 in Hc. injection Hc as <-. reflexivity.
  - intros JSON_parse data ts w s Hparse Hprobe Hset. cbn zeta.
    set (u := "http://" ++ ip ++ ":" ++ port) in *.
    destruct (scanned_ok JSON_parse data (qrPayload u ts) (trim u) Hparse) as [Hprog _].
    { unfold scanned_url, qrPayload. cbn. destruct u; reflexivity. }
    { apply trim_http. }
    rewrite Hprog. clear Hprog. revert Hprobe. generalize (trim u). intros url Hprobe.
    apply probe_true_inv in Hprobe as (res & data' & Hnet & Hok & Hjson & Hmark).
    unfold connectWithBaseUrl, tryHealth.
    cbn. rewrite Hnet. cbn. rewrite Hok. cbn. rewrite Hjson. cbn. rewrite Hmark. cbn.
    rewrite Hset. cbn. repeat split; try reflexivity. apply lookup_insert_eq.
Qed.

Lemma offered_urls_pass_the_scanner_witness :
  let nets :=
    [("lo", Some [{| family := "IPv4"; internal := true; address := "127.0.0.1" |}]);
     ("eth0", Some [{| family := "IPv4"; internal := false; address := "192.168.1.50" |}])] in
  let answer := server_info None "2024-01-01T10:00:00.000Z" nets in
  let data :=
    JSON.text "{'baseUrl':'http://192.168.1.50:4310','token':'demo-token','ts':1704103200000}" in
  let r := exec (all_alive None) (onQrScanned JSON.parse data) (initial ∅) in
  Js.get (Server.body answer) "urls" = Js.Arr [Js.Str "http://192.168.1.50:4310"] /\
  outcome r = Returned tt /\
  baseUrl (final r) = Some "http://192.168.1.50:4310".
Proof.
  destruct (offered_urls_pass_the_scanner None "2024-01-01T10:00:00.000Z"
              [("lo", Some [{| family := "IPv4"; internal := true;
                               address := "127.0.0.1" |}]);
               ("eth0", Some [{| family := "IPv4"; internal := false;
                                 address := "192.168.1.50" |}])])
    as (_ & _ & _ & Hurls & H).
  split; [exact Hurls|].
  destruct (H "http://192.168.1.50:4310") as (_ & _ & H'); [left|].
  destruct (H' JSON.parse
              (JSON.text "{'baseUrl':'http://192.168.1.50:4310','token':'demo-token','ts':1704103200000}")
              1704103200000 (all_alive None) (initial ∅) eq_refl eq_refl eq_refl)
    as (Ho & Hb & _).
  split; [exact Ho | exact Hb].
Defined.
